(** * Tab-seg: the IPU dashboard's derivation and filter pipeline

    A shallow embedding of [streamlit_app.py]: the loader [load_data]
    (exclusion of rows marked NO, the derived columns [zona],
    [estrato_cat], [rango_avaluo_2024], [rango_area_const],
    [cambio_tarifa], [situacion_tarifa], [situacion_ipu]) and the filter
    statements that build [df_filt].

    Conventions of the model.
    - A numeric cell is an optional rational: [None] is pandas' NaN, and
      [Some q] a finite number.  Arithmetic and comparisons are exact; the
      rounding of 64-bit floats and infinities stored in a cell are not
      modelled.  Where a statement depends on a value being exactly
      representable (a cast to int64, a sum of floats) it says so in a
      hypothesis.
    - The sheet is a list of typed rows.  The columns the script reads
      unconditionally are record fields; the two columns it probes with
      [in df.columns] are governed by the [columns] list of the sheet.
    - A Python exception is the left summand of [exn + A]. *)

From Stdlib Require Import String Ascii Bool ZArith QArith Qround Qabs Lia Lqa.
From Stdlib Require Import DecimalString DecimalPos DecimalZ List Permutation Sorted.
Import ListNotations.

Local Open Scope string_scope.
Local Open Scope Q_scope.

(** ** Exceptions and the error monad *)

Inductive exn : Type :=
| FileNotFoundError
| ValueError (msg : string)
| IndexError (msg : string)
| StreamlitInvalidMinMaxError.

Definition result (A : Type) : Type := (exn + A)%type.

Definition raise {A : Type} (e : exn) : result A := inl e.
Definition ret {A : Type} (a : A) : result A := inr a.

Definition bind {A B : Type} (m : result A) (k : A -> result B) : result B :=
  match m with
  | inl e => inl e
  | inr a => k a
  end.

Notation "x <- m ;; k" := (bind m (fun x => k))
  (at level 61, m at next level, right associativity).

(** ** Cells *)

(** A cell of an [object] column: missing, a number or a string. *)
Inductive cell : Type :=
| NaN
| Num (q : Q)
| Str (s : string).

(** Python's [==] between two cells; NaN is equal to nothing. *)
Definition cell_eqb (a b : cell) : bool :=
  match a, b with
  | Num x, Num y => Qeq_bool x y
  | Str s, Str t => String.eqb s t
  | _, _ => false
  end.

(** The elementwise [!=] of a Series against a scalar. *)
Definition cell_ne (a b : cell) : bool := negb (cell_eqb a b).

(** Comparisons of a numeric cell with a number: False on NaN. *)
Definition num_lt (x : option Q) (y : Q) : bool :=
  match x with
  | Some a => negb (Qle_bool y a)
  | None => false
  end.

Definition num_gt (x : option Q) (y : Q) : bool :=
  match x with
  | Some a => negb (Qle_bool a y)
  | None => false
  end.

Definition num_eq (x : option Q) (y : Q) : bool :=
  match x with
  | Some a => Qeq_bool a y
  | None => false
  end.

Definition num_ge (x : option Q) (y : Q) : bool :=
  match x with
  | Some a => Qle_bool y a
  | None => false
  end.

Definition num_le (x : option Q) (y : Q) : bool :=
  match x with
  | Some a => Qle_bool a y
  | None => false
  end.

(** [a - b] on two numeric cells: NaN as soon as one side is. *)
Definition num_sub (a b : option Q) : option Q :=
  match a, b with
  | Some x, Some y => Some (x - y)
  | _, _ => None
  end.

(** ** Series primitives used by the script *)

(** [Series.map(dict)]: the value of the first key equal to the cell,
    NaN when no key matches (and for a missing cell). *)
Fixpoint map_dict (d : list (cell * string)) (c : cell) : option string :=
  match d with
  | [] => None
  | (k, v) :: d' => if cell_eqb c k then Some v else map_dict d' c
  end.

(** [Series.fillna(v)]. *)
Definition fillna {A : Type} (v : A) (c : option A) : A :=
  match c with
  | Some a => a
  | None => v
  end.

(** [astype(int)] on a finite float: truncation towards zero. The cast
    targets int64; this is its value on the range of int64 ([in_int64]),
    outside of which numpy's result is not the truncation. *)
Definition astype_int (q : Q) : Z := Z.quot (Qnum q) (Zpos (Qden q)).

(** The integers of an int64 column. *)
Definition in_int64 (z : Z) : Prop :=
  (- 9223372036854775808 <= z <= 9223372036854775807)%Z.

(** [astype(str)] on an integer: Python's [str]. *)
Definition astype_str (z : Z) : string := NilZero.string_of_int (Z.to_int z).

(** [Series.replace(dict)] on strings: whole-value replacement. *)
Fixpoint replace (d : list (string * string)) (s : string) : string :=
  match d with
  | [] => s
  | (k, v) :: d' => if String.eqb s k then v else replace d' s
  end.

(** [Series.isin(values)] for a column of strings. *)
Definition isin (c : option string) (values : list string) : bool :=
  match c with
  | Some s => existsb (String.eqb s) values
  | None => false
  end.

(** [np.select(condlist, choicelist, default)] at one position: the choice
    of the first condition that holds. *)
Fixpoint np_select (condlist : list bool) (choicelist : list string)
    (default : string) : string :=
  match condlist, choicelist with
  | c :: cs, v :: vs => if c then v else np_select cs vs default
  | _, _ => default
  end.

(** [Series.notna().sum()]. *)
Definition notna_sum {A : Type} (col : list (option A)) : nat :=
  length (filter (fun c => match c with Some _ => true | None => false end) col).

(** The non-missing values of a numeric column. *)
Fixpoint dropna {A : Type} (col : list (option A)) : list A :=
  match col with
  | [] => []
  | Some a :: col' => a :: dropna col'
  | None :: col' => dropna col'
  end.

(** ** Quantiles and [np.unique] *)

Fixpoint insert_sorted (x : Q) (l : list Q) : list Q :=
  match l with
  | [] => [x]
  | y :: l' => if Qle_bool x y then x :: l else y :: insert_sorted x l'
  end.

Definition sort (l : list Q) : list Q := fold_right insert_sorted [] l.

(** One quantile of an ascending list, with the default linear
    interpolation: the virtual index [(n - 1) * q] falls between two ranks,
    and the result interpolates between the two values found there. The
    interpolation is exact here; numpy's float64 result can differ from it
    in the last bit, and with it the text of a label whose edge sits on a
    rounding tie. *)
Definition quantile_sorted (sorted : list Q) (q : Q) : Q :=
  let n := length sorted in
  let virtual_index := (inject_Z (Z.of_nat n) - 1) * q in
  let previous := Z.to_nat (Qfloor virtual_index) in
  let next := Nat.min (S previous) (n - 1) in
  let gamma := virtual_index - inject_Z (Qfloor virtual_index) in
  let lo := nth previous sorted 0 in
  let hi := nth next sorted 0 in
  lo + (hi - lo) * gamma.

(** [Series.quantile(qs).values]: missing cells are skipped. *)
Definition quantile (col : list (option Q)) (qs : list Q) : list Q :=
  map (quantile_sorted (sort (dropna col))) qs.

Fixpoint dedup_sorted (l : list Q) : list Q :=
  match l with
  | [] => []
  | x :: l' =>
      match l' with
      | [] => [x]
      | y :: _ => if Qeq_bool x y then dedup_sorted l' else x :: dedup_sorted l'
      end
  end.

(** [np.unique]: the distinct values in ascending order. *)
Definition np_unique (l : list Q) : list Q := dedup_sorted (sort l).

(** ** Label formatting *)

(** The magnitude of a float printed with no decimals: nearest integer,
    ties to the even one. *)
Definition round_half_even (q : Q) : Z :=
  let n := Z.abs (Qnum q) in
  let d := Zpos (Qden q) in
  let f := (n / d)%Z in
  let r := (n mod d)%Z in
  if (2 * r <? d)%Z then f
  else if (d <? 2 * r)%Z then (f + 1)%Z
  else if Z.even f then f else (f + 1)%Z.

(** Commas every three digits, on the digits read from the right;
    [k] counts the digits written since the last comma. *)
Fixpoint group_rev (k : nat) (rev_digits : list ascii) : list ascii :=
  match rev_digits with
  | [] => []
  | c :: rest =>
      if Nat.eqb k 3 then ","%char :: c :: group_rev 1 rest
      else c :: group_rev (S k) rest
  end.

Definition group_thousands (digits : string) : string :=
  string_of_list_ascii (rev (group_rev 0 (rev (list_ascii_of_string digits)))).

(** [format(q, ',.0f')]. A negative value keeps its sign even when it
    rounds to zero. *)
Definition format_comma_0f (q : Q) : string :=
  let body := group_thousands (astype_str (round_half_even q)) in
  if (Qnum q <? 0)%Z then String "-" body else body.

(** [str.replace(",", ".")]. *)
Fixpoint replace_comma (s : string) : string :=
  match s with
  | EmptyString => EmptyString
  | String c s' =>
      String (if Ascii.eqb c ","%char then "."%char else c) (replace_comma s')
  end.

(** [f"${a:,.0f} - ${b:,.0f}".replace(",", ".")] *)
Definition band_label (a b : Q) : string :=
  replace_comma ("$" ++ format_comma_0f a ++ " - $" ++ format_comma_0f b).

(** The loop [for i in range(len(qs) - 1): labels.append(...)]. *)
Definition make_labels (qs : list Q) : list string :=
  map (fun i => band_label (nth i qs 0) (nth (i + 1) qs 0))
      (seq 0 (length qs - 1)).

(** ** [pd.cut] *)

(** A bin edge: a finite number or [np.inf]. *)
Inductive edge : Type :=
| Fin (q : Q)
| Inf.

Definition edge_ltb (a b : edge) : bool :=
  match a, b with
  | Fin x, Fin y => negb (Qle_bool y x)
  | Fin _, Inf => true
  | Inf, _ => false
  end.

Definition edge_eqb (a b : edge) : bool :=
  match a, b with
  | Fin x, Fin y => Qeq_bool x y
  | Inf, Inf => true
  | _, _ => false
  end.

Fixpoint is_monotonic_increasing (bins : list edge) : bool :=
  match bins with
  | [] => true
  | a :: bins' =>
      match bins' with
      | [] => true
      | b :: _ => negb (edge_ltb b a) && is_monotonic_increasing bins'
      end
  end.

(** [algos.unique]: first occurrences, in order of appearance. *)
Fixpoint unique_edges (seen bins : list edge) : list edge :=
  match bins with
  | [] => []
  | b :: bins' =>
      if existsb (edge_eqb b) seen then unique_edges seen bins'
      else b :: unique_edges (b :: seen) bins'
  end.

Fixpoint has_duplicates (labels : list string) : bool :=
  match labels with
  | [] => false
  | l :: labels' => existsb (String.eqb l) labels' || has_duplicates labels'
  end.

(** [bins.searchsorted(x, side="left")]: the first position whose edge is
    not below [x]. *)
Fixpoint searchsorted_left (bins : list edge) (x : Q) : nat :=
  match bins with
  | [] => 0
  | b :: bins' => if edge_ltb b (Fin x) then S (searchsorted_left bins' x) else 0
  end.

(** The band of one value, [right=True]:
    [ids = searchsorted(x)]; with [include_lowest] a value equal to the
    first edge gets [ids = 1]; [ids = 0], [ids = len(bins)] and a missing
    value give NaN; otherwise the label at [ids - 1]. *)
Definition cut_cell (bins : list edge) (labels : list string)
    (include_lowest : bool) (first : edge) (x : option Q) : option string :=
  match x with
  | None => None
  | Some v =>
      let ids := searchsorted_left bins v in
      let ids := if include_lowest && edge_eqb (Fin v) first then 1%nat else ids in
      if Nat.eqb ids (length bins) || Nat.eqb ids 0 then None
      else nth_error labels (ids - 1)
  end.

(** The error [pd.cut] raises on labels that are not pairwise distinct. *)
Definition labels_error : exn :=
  ValueError
    "Categorical labels must be unique if ordered=True; pass ordered=False for duplicate labels".

(** [pd.cut(x, bins=bins, labels=labels, include_lowest=..., duplicates=...)]
    for a list of edges and a list of labels, with the checks pandas makes
    in the order it makes them. *)
Definition cut (x : list (option Q)) (bins : list edge) (labels : list string)
    (include_lowest drop_duplicates : bool) : result (list (option string)) :=
  if negb (is_monotonic_increasing bins) then
    raise (ValueError "bins must increase monotonically.")
  else
    let unique_bins := unique_edges [] bins in
    let duplicated :=
      Nat.ltb (length unique_bins) (length bins) && negb (Nat.eqb (length bins) 2) in
    if duplicated && negb drop_duplicates then
      raise (ValueError "Bin edges must be unique")  (* pandas appends the edges *)
    else
      let bins := if duplicated then unique_bins else bins in
      match bins with
      | [] =>
          if include_lowest then
            raise (IndexError "index 0 is out of bounds for axis 0 with size 0")
          else if has_duplicates labels then
            raise labels_error
          else raise (ValueError "Bin labels must be one fewer than the number of bin edges")
      | first :: _ =>
          if has_duplicates labels then
            raise labels_error
          else if negb (Nat.eqb (length labels) (length bins - 1)) then
            raise (ValueError "Bin labels must be one fewer than the number of bin edges")
          else ret (map (cut_cell bins labels include_lowest first) x)
      end.

(** ** The data model *)

(** One row of the sheet MATRIZ. [NO] and [clase] are kept as raw cells
    (the script only compares them); the other columns are numeric or
    text. [NO] and [DIFERENCIA_EN_EL_VALOR] are meaningful only when the
    sheet lists the column. *)
Record PropertyRecord : Type := mkPropertyRecord {
  NO : cell;
  clase : cell;
  ESTRATO : option Q;
  DESTINACION : option string;
  avaluo2024 : option Q;
  area_const : option Q;
  tarifa : option Q;
  TARIFA_PROPUESTA : option Q;
  VLR_IPU_2025 : option Q;
  IPU_LEY_44 : option Q;
  DIFERENCIA_EN_EL_VALOR : option Q
}.

(** A sheet as [read_excel] returns it. *)
Record DataFrame : Type := mkDataFrame {
  columns : list string;
  rows : list PropertyRecord
}.

(** A row of the table [load_data] returns: the source row and the
    columns the loader adds. *)
Record DerivedRecord : Type := mkDerivedRecord {
  source : PropertyRecord;
  zona : string;
  estrato_cat : string;
  rango_avaluo_2024 : option string;
  rango_area_const : option string;
  cambio_tarifa : option Q;
  situacion_tarifa : string;
  situacion_ipu : string
}.

(** The files the process can read: a workbook per path, a sheet per
    name. *)
Definition Workbook : Type := string -> option DataFrame.
Definition FileSystem : Type := string -> option Workbook.

(** [pd.read_excel(path, sheet_name=...)]: the two failures the script
    can meet on a well-formed workbook, a missing file and a missing
    sheet. *)
Definition read_excel (fs : FileSystem) (path sheet_name : string)
    : result DataFrame :=
  match fs path with
  | None => raise FileNotFoundError
  | Some wb =>
      match wb sheet_name with
      | None =>
          raise (ValueError ("Worksheet named '" ++ sheet_name ++ "' not found"))
      | Some df => ret df
      end
  end.

(** [name in df.columns] *)
Definition in_columns (name : string) (df : DataFrame) : bool :=
  existsb (String.eqb name) (columns df).

(** ** [load_data] *)

(** [df["clase"].map({1: "URBANO", 2: "RURAL"}).fillna("SIN CLASE")] *)
Definition zona_of (c : cell) : string :=
  fillna "SIN CLASE" (map_dict [(Num 1, "URBANO"); (Num 2, "RURAL")] c).

(** [df["ESTRATO"].fillna(0).astype(int).astype(str)] followed by
    [.replace({"0": "SIN ESTRATO"})] *)
Definition estrato_cat_of (e : option Q) : string :=
  replace [("0", "SIN ESTRATO")] (astype_str (astype_int (fillna 0 e))).

Definition quantile_points : list Q := [0; 1 # 5; 2 # 5; 3 # 5; 4 # 5; 1].

(** The branch on [df["avaluo2024"].notna().sum() > 0]. *)
Definition rango_avaluo_2024_of (col : list (option Q))
    : result (list (option string)) :=
  if Nat.ltb 0 (notna_sum col) then
    let qs := quantile col quantile_points in
    let qs := np_unique qs in
    let labels := make_labels qs in
    cut col (map Fin qs) labels true true
  else
    ret (map (fun _ => Some "SIN AVALUO") col).

Definition area_bins : list edge := [Fin 0; Fin 35; Fin 70; Fin 120; Inf].

Definition area_labels : list string :=
  ["0 - 35 m²"; "35 - 70 m²"; "70 - 120 m²"; "Más de 120 m²"].

Definition rango_area_const_of (col : list (option Q))
    : result (list (option string)) :=
  cut col area_bins area_labels true false.

(** [np.select([c < 0, c == 0, c > 0], choices, default="Sin dato")] *)
Definition sign_select (c : option Q) (choices : list string) : string :=
  np_select [num_lt c 0; num_eq c 0; num_gt c 0] choices "Sin dato".

Definition situacion_tarifa_of (cambio : option Q) : string :=
  sign_select cambio ["Baja tarifa"; "Misma tarifa"; "Sube tarifa"].

Definition situacion_ipu_of (has_column : bool) (r : PropertyRecord) : string :=
  if has_column then
    sign_select (DIFERENCIA_EN_EL_VALOR r) ["Baja IPU"; "IPU igual"; "Sube IPU"]
  else "Sin dato".

(** The row assembled from a source row and its two band cells. *)
Definition derive (has_diferencia : bool)
    (row : PropertyRecord * (option string * option string)) : DerivedRecord :=
  let r := fst row in
  let cambio := num_sub (TARIFA_PROPUESTA r) (tarifa r) in
  {| source := r;
     zona := zona_of (clase r);
     estrato_cat := estrato_cat_of (ESTRATO r);
     rango_avaluo_2024 := fst (snd row);
     rango_area_const := snd (snd row);
     cambio_tarifa := cambio;
     situacion_tarifa := situacion_tarifa_of cambio;
     situacion_ipu := situacion_ipu_of has_diferencia r |}.

(** The rows kept by [df[df["NO"] != "NO"]] when the column exists. *)
Definition exclude_NO (df : DataFrame) : list PropertyRecord :=
  if in_columns "NO" df then
    filter (fun r => cell_ne (NO r) (Str "NO")) (rows df)
  else rows df.

Definition load_data (fs : FileSystem) (path : string)
    : result (list DerivedRecord) :=
  df <- read_excel fs path "MATRIZ" ;;
  let kept := exclude_NO df in
  rango_avaluo <- rango_avaluo_2024_of (map avaluo2024 kept) ;;
  rango_area <- rango_area_const_of (map area_const kept) ;;
  ret (map (derive (in_columns "DIFERENCIA EN EL VALOR" df))
           (combine kept (combine rango_avaluo rango_area))).

Definition default_path : string := "MATRIZ PREDIAL_resumida.xlsx".

(** ** The filter statements *)

(** The five indexing statements that turn [data] into [df_filt], with
    the two sliders' values [aval_rango] (integers) and [area_rango]. *)
Definition df_filt (data : list DerivedRecord)
    (zona_sel estrato_sel dest_sel : list string)
    (aval_rango : Z * Z) (area_rango : Q * Q) : list DerivedRecord :=
  let df := data in
  let df := filter (fun r => isin (Some (zona r)) zona_sel) df in
  let df := filter (fun r => isin (Some (estrato_cat r)) estrato_sel) df in
  let df := filter (fun r => isin (DESTINACION (source r)) dest_sel) df in
  let df := filter (fun r =>
      num_ge (avaluo2024 (source r)) (inject_Z (fst aval_rango))
      && num_le (avaluo2024 (source r)) (inject_Z (snd aval_rango))) df in
  let df := filter (fun r =>
      num_ge (area_const (source r)) (fst area_rango)
      && num_le (area_const (source r)) (snd area_rango)) df in
  df.

(** The outcome of the filter statements as a computation: none of them
    raises. *)
Definition run_filter (data : list DerivedRecord)
    (zona_sel estrato_sel dest_sel : list string)
    (aval_rango : Z * Z) (area_rango : Q * Q) : result (list DerivedRecord) :=
  ret (df_filt data zona_sel estrato_sel dest_sel aval_rango area_rango).

(** ** Sample sheets *)

Definition sample_row (no : cell) (cl : cell) (e av ar t tp : option Q)
    : PropertyRecord :=
  {| NO := no; clase := cl; ESTRATO := e; DESTINACION := Some "HABITACIONAL";
     avaluo2024 := av; area_const := ar; tarifa := t; TARIFA_PROPUESTA := tp;
     VLR_IPU_2025 := Some 1000; IPU_LEY_44 := Some 1200;
     DIFERENCIA_EN_EL_VALOR := Some 200 |}.

Definition one_sheet (df : DataFrame) : FileSystem :=
  fun path =>
    if String.eqb path default_path then
      Some (fun sheet => if String.eqb sheet "MATRIZ" then Some df else None)
    else None.

Definition sample_df : DataFrame :=
  {| columns := ["NO"; "clase"; "ESTRATO"; "DESTINACION"; "avaluo2024";
                 "area_const"; "tarifa"; "TARIFA PROPUESTA"; "VLR_IPU_2025";
                 "IPU LEY 44"];
     rows :=
       [ sample_row NaN (Num 1) (Some 2) (Some 100) (Some 35) (Some 5) (Some 4);
         sample_row (Str "NO") (Num 1) (Some 1) (Some 150) (Some 50) (Some 5) (Some 5);
         sample_row (Str "no") (Num 2) None (Some 200) (Some 70) (Some 5) (Some 5);
         sample_row (Num 7) (Str "x") (Some 0) (Some 300) (Some 121) (Some 6) (Some 7);
         sample_row NaN NaN (Some 3) (Some 250) (Some (-1)) (Some 6) None ] |}.

Definition sample_fs : FileSystem := one_sheet sample_df.

(** The table the loader builds from the sample sheet. *)
Definition sample_data : list DerivedRecord :=
  Eval vm_compute in
    match load_data sample_fs default_path with
    | inr data => data
    | inl _ => []
    end.

(** ** Definitions used by the statements *)

(** The band of one area value: what [pd.cut] computes per cell for the
    fixed area bins. *)
Definition area_band (a : option Q) : option string :=
  cut_cell area_bins area_labels true (Fin 0) a.

(** [df["NO"]] at one row: the cell when the sheet has the column. *)
Definition NO_column (df : DataFrame) (r : PropertyRecord) : option cell :=
  if in_columns "NO" df then Some (NO r) else None.

(** A placeholder row, the default of [nth] on the sample table. *)
Definition blank_record : DerivedRecord :=
  derive false (sample_row NaN NaN None None None None None, (None, None)).

Definition sample_at (i : nat) : DerivedRecord := nth i sample_data blank_record.

(** Selections and an area range for the sample table. *)
Definition all_zonas : list string := ["URBANO"; "RURAL"; "SIN CLASE"].
Definition all_estratos : list string := ["2"; "3"; "SIN ESTRATO"].
Definition all_destinaciones : list string := ["HABITACIONAL"].
Definition area_0_200 : Q * Q := (0, 200).

(** A sheet of three properties, all valued at 100. *)
Definition tied_df : DataFrame :=
  {| columns := ["clase"; "ESTRATO"; "DESTINACION"; "avaluo2024"; "area_const";
                 "tarifa"; "TARIFA PROPUESTA"; "VLR_IPU_2025"; "IPU LEY 44"];
     rows :=
       [ sample_row NaN (Num 1) (Some 1) (Some 100) (Some 30) (Some 5) (Some 5);
         sample_row NaN (Num 1) (Some 2) (Some 100) (Some 60) (Some 5) (Some 6);
         sample_row NaN (Num 2) (Some 3) (Some 100) (Some 90) (Some 6) (Some 5) ] |}.

Definition tied_fs : FileSystem := one_sheet tied_df.

(** A sheet of four properties valued 1000, 1000, 1000 and 1000.3. *)
Definition near_tied_df : DataFrame :=
  {| columns := ["clase"; "ESTRATO"; "DESTINACION"; "avaluo2024"; "area_const";
                 "tarifa"; "TARIFA PROPUESTA"; "VLR_IPU_2025"; "IPU LEY 44"];
     rows :=
       map (fun a => sample_row NaN (Num 1) (Some 1) (Some a) (Some 30) (Some 5) (Some 5))
           [1000; 1000; 1000; 10003 # 10] |}.

(** The sheet of the three-row scenario. *)
Definition scenario_df : DataFrame :=
  {| columns := ["clase"; "ESTRATO"; "DESTINACION"; "avaluo2024"; "area_const";
                 "tarifa"; "TARIFA PROPUESTA"; "VLR_IPU_2025"; "IPU LEY 44"];
     rows :=
       [ sample_row NaN (Num 1) (Some 1) (Some 100) (Some 30) (Some 5) (Some 4);
         sample_row NaN (Num 2) (Some 2) (Some 200) (Some 60) (Some 5) (Some 5);
         sample_row NaN (Num 1) (Some 3) (Some 300) (Some 90) (Some 6) (Some 6) ] |}.

(** ** The sidebar *)

(** Insertion into an ascending list; [sorted_by] is Python's [sorted]
    for the order [leb]. *)
Fixpoint insert_by {A : Type} (leb : A -> A -> bool) (x : A) (l : list A)
    : list A :=
  match l with
  | [] => [x]
  | y :: l' => if leb x y then x :: l else y :: insert_by leb x l'
  end.

Definition sorted_by {A : Type} (leb : A -> A -> bool) (l : list A) : list A :=
  fold_right (insert_by leb) [] l.

(** [Series.unique()]: the distinct values in order of first appearance. *)
Fixpoint unique_by {A : Type} (eqb : A -> A -> bool) (l : list A) : list A :=
  match l with
  | [] => []
  | x :: l' => x :: filter (fun y => negb (eqb y x)) (unique_by eqb l')
  end.

(** [sorted(col.dropna().unique().tolist())] for a column of strings. *)
Definition sorted_unique (col : list (option string)) : list string :=
  sorted_by String.leb (unique_by String.eqb (dropna col)).

(** The options, and default selections, of the three multiselects. *)
Definition zonas (data : list DerivedRecord) : list string :=
  sorted_unique (map (fun r => Some (zona r)) data).

Definition estratos (data : list DerivedRecord) : list string :=
  sorted_unique (map (fun r => Some (estrato_cat r)) data).

Definition destinaciones (data : list DerivedRecord) : list string :=
  sorted_unique (map (fun r => DESTINACION (source r)) data).

(** [Series.min()] and [Series.max()]: missing cells are skipped, and a
    column without a value gives NaN. *)
Definition q_min (a b : Q) : Q := if Qle_bool a b then a else b.
Definition q_max (a b : Q) : Q := if Qle_bool a b then b else a.

Definition series_min (col : list (option Q)) : option Q :=
  match dropna col with
  | [] => None
  | x :: xs => Some (fold_left q_min xs x)
  end.

Definition series_max (col : list (option Q)) : option Q :=
  match dropna col with
  | [] => None
  | x :: xs => Some (fold_left q_max xs x)
  end.

(** Python's [int] on a float: truncation (Python integers are not
    bounded), and an exception on NaN. *)
Definition python_int (x : option Q) : result Z :=
  match x with
  | None => raise (ValueError "cannot convert float NaN to integer")
  | Some q => ret (astype_int q)
  end.

(** [st.sidebar.slider(..., min_value=lo, max_value=hi, value=(lo, hi))]
    before the user moves it: Streamlit refuses a slider whose [min_value]
    is not below its [max_value], and otherwise returns [value]. Its
    limits on the size of the numbers are not modelled. *)
Definition slider {A : Type} (ltb : A -> A -> bool) (min_value max_value : A)
    (value : A * A) : result (A * A) :=
  if ltb min_value max_value then ret value
  else raise StreamlitInvalidMinMaxError.

Definition Qltb (a b : Q) : bool := negb (Qle_bool b a).

(** The valuation slider with [value=(int(aval_min), int(aval_max))]. *)
Definition aval_rango_default (data : list DerivedRecord) : result (Z * Z) :=
  let aval_min := series_min (map (fun r => avaluo2024 (source r)) data) in
  let aval_max := series_max (map (fun r => avaluo2024 (source r)) data) in
  lo <- python_int aval_min ;;
  hi <- python_int aval_max ;;
  slider Z.ltb lo hi (lo, hi).

(** The area slider with
    [value=(float(int(area_min)), float(int(area_max)))]. *)
Definition area_rango_default (data : list DerivedRecord) : result (Q * Q) :=
  let area_min := series_min (map (fun r => area_const (source r)) data) in
  let area_max := series_max (map (fun r => area_const (source r)) data) in
  lo <- python_int area_min ;;
  hi <- python_int area_max ;;
  slider Qltb (inject_Z lo) (inject_Z hi) (inject_Z lo, inject_Z hi).

(** [df_filt] while every widget still returns its default: the
    multiselects return their [default=] lists, the sliders are built in
    the order of the script, and the five filter statements follow. *)
Definition df_filt_default (data : list DerivedRecord)
    : result (list DerivedRecord) :=
  aval_rango <- aval_rango_default data ;;
  area_rango <- area_rango_default data ;;
  ret (df_filt data (zonas data) (estratos data) (destinaciones data)
         aval_rango area_rango).

(** [f"{n:,}".replace(",", ".")] for a row count. *)
Definition format_count (n : nat) : string :=
  replace_comma (group_thousands (astype_str (Z.of_nat n))).

(** The line written under the filters. *)
Definition predios_filtrados (df : list DerivedRecord) : string :=
  replace_comma
    ("Predios filtrados: **" ++ group_thousands (astype_str (Z.of_nat (length df)))
     ++ "**").

(** ** The summary tab *)

(** [Series.sum()]: missing cells are skipped; the empty sum is 0. The
    sum is the exact one; the script's float64 sum is this number when the
    amounts are [exact_amounts]. *)
Definition series_sum (col : list (option Q)) : Q :=
  fold_right Qplus 0 (dropna col).

(** The sum of the absolute values of a column. *)
Definition abs_sum (col : list (option Q)) : Q :=
  fold_right (fun x acc => Qabs x + acc) 0 (dropna col).

(** A column of whole amounts whose absolute values add up to at most
    2^52: every partial sum of such amounts, and the difference of two
    such sums, is a whole number below 2^53 in absolute value, so float64
    addition is exact on them in any order. *)
Definition exact_amounts (col : list (option Q)) : Prop :=
  (forall c, In c col -> c = None \/ exists q z, c = Some q /\ q == inject_Z z) /\
  abs_sum col <= inject_Z 4503599627370496.

Definition total_predios (df : list DerivedRecord) : nat := length df.

Definition rec_actual (df : list DerivedRecord) : Q :=
  series_sum (map (fun r => VLR_IPU_2025 (source r)) df).

Definition rec_propuesta (df : list DerivedRecord) : Q :=
  series_sum (map (fun r => IPU_LEY_44 (source r)) df).

Definition delta_recaudo (df : list DerivedRecord) : Q :=
  rec_propuesta df - rec_actual df.

(** The rows of one group of [groupby(key)]. *)
Definition group_of {K : Type} (eqb : K -> K -> bool)
    (key : DerivedRecord -> K) (k : K) (df : list DerivedRecord)
    : list DerivedRecord :=
  filter (fun r => eqb (key r) k) df.

(** [df_filt.groupby("zona")[["VLR_IPU_2025", "IPU LEY 44"]].sum()
    .reset_index()]: one row per zone present, zones ascending. *)
Definition recaudo_por_zona (df : list DerivedRecord) : list (string * (Q * Q)) :=
  map (fun k =>
         let g := group_of String.eqb zona k df in
         (k, (rec_actual g, rec_propuesta g)))
      (zonas df).

(** [.melt(id_vars="zona", var_name="Escenario", value_name="Recaudo")]:
    the rows of the first value column, then those of the second. *)
Definition melt (wide : list (string * (Q * Q))) : list (string * string * Q) :=
  map (fun row => (fst row, "VLR_IPU_2025", fst (snd row))) wide
  ++ map (fun row => (fst row, "IPU LEY 44", snd (snd row))) wide.

Definition agg (df : list DerivedRecord) : list (string * string * Q) :=
  melt (recaudo_por_zona df).

(** The column Recaudo of the rows of [agg] for one scenario. *)
Definition recaudo_of (escenario : string) (rows : list (string * string * Q))
    : list Q :=
  map snd (filter (fun row => String.eqb (snd (fst row)) escenario) rows).

Definition sum_Q (l : list Q) : Q := fold_right Qplus 0 l.

(** ** The tariff tab *)

(** [df_filt.groupby("situacion_tarifa").size().reset_index(name="predios")]:
    one row per value present, values ascending. The script then reorders
    these rows with [sort_values]. *)
Definition dist_tarifa (df : list DerivedRecord) : list (string * nat) :=
  map (fun k => (k, length (group_of String.eqb situacion_tarifa k df)))
      (sorted_unique (map (fun r => Some (situacion_tarifa r)) df)).

(** The two keys of [groupby(["zona", "DESTINACION"])]; a row whose
    DESTINACION is missing belongs to no group. *)
Definition zona_destinacion (r : DerivedRecord) : option (string * string) :=
  match DESTINACION (source r) with
  | Some dest => Some (zona r, dest)
  | None => None
  end.

Definition pair_eqb (a b : string * string) : bool :=
  String.eqb (fst a) (fst b) && String.eqb (snd a) (snd b).

(** Tuples compare on the first component, then on the second. *)
Definition pair_leb (a b : string * string) : bool :=
  match String.compare (fst a) (fst b) with
  | Lt => true
  | Eq => String.leb (snd a) (snd b)
  | Gt => false
  end.

(** [Series.mean()]: the mean of the values present, NaN without any. *)
Definition series_mean (col : list (option Q)) : option Q :=
  match dropna col with
  | [] => None
  | vals => Some (sum_Q vals / inject_Z (Z.of_nat (length vals)))
  end.

Record ResumenTarifa : Type := mkResumenTarifa {
  resumen_zona : string;
  resumen_DESTINACION : string;
  predios : nat;
  tarifa_prom_actual : option Q;
  tarifa_prom_propuesta : option Q
}.

(** [df_filt.groupby(["zona", "DESTINACION"]).agg(predios=("clase", "size"),
    tarifa_prom_actual=("tarifa", "mean"),
    tarifa_prom_propuesta=("TARIFA PROPUESTA", "mean")).reset_index()] *)
Definition resumen_tarifas (df : list DerivedRecord) : list ResumenTarifa :=
  map (fun k =>
         let g := filter (fun r => match zona_destinacion r with
                                   | Some k' => pair_eqb k' k
                                   | None => false
                                   end) df in
         {| resumen_zona := fst k;
            resumen_DESTINACION := snd k;
            predios := length g;
            tarifa_prom_actual := series_mean (map (fun r => tarifa (source r)) g);
            tarifa_prom_propuesta :=
              series_mean (map (fun r => TARIFA_PROPUESTA (source r)) g) |})
      (sorted_by pair_leb (unique_by pair_eqb (dropna (map zona_destinacion df)))).

(** Deleting one character from a string. *)
Fixpoint remove_char (c : ascii) (s : string) : string :=
  match s with
  | EmptyString => EmptyString
  | String a s' => if Ascii.eqb a c then remove_char c s' else String a (remove_char c s')
  end.

(** The valuation column of the rows kept, and the edges and labels the
    loader computes from it. *)
Definition kept_avaluo (df : DataFrame) : list (option Q) :=
  map avaluo2024 (exclude_NO df).

Definition valuation_edges (df : DataFrame) : list Q :=
  np_unique (quantile (kept_avaluo df) quantile_points).

Definition valuation_labels (df : DataFrame) : list string :=
  make_labels (valuation_edges df).

(** A cell holding a whole number. *)
Definition whole (c : option Q) : Prop :=
  exists q z, c = Some q /\ q == inject_Z z.

(** The number of keys whose test [P k] a row passes. *)
Definition matches {K R : Type} (P : K -> R -> bool) (keys : list K) (r : R)
    : nat :=
  length (filter (fun k => P k r) keys).

(** What a cell adds to a sum that skips missing cells. *)
Definition cell_value {R : Type} (f : R -> option Q) (r : R) : Q :=
  fillna 0 (f r).

(** The two thousands separators. *)
Definition is_sep (c : ascii) : bool :=
  Ascii.eqb c ","%char || Ascii.eqb c "."%char.

(** The sample sheet with the column DIFERENCIA EN EL VALOR. *)
Definition dif_df : DataFrame :=
  {| columns := "DIFERENCIA EN EL VALOR" :: columns sample_df;
     rows := rows sample_df |}.

Definition dif_data : list DerivedRecord :=
  Eval vm_compute in
    match load_data (one_sheet dif_df) default_path with
    | inr data => data
    | inl _ => []
    end.

(** A sheet of two properties without a valuation. *)
Definition unvalued_df : DataFrame :=
  {| columns := ["clase"; "ESTRATO"; "DESTINACION"; "avaluo2024"; "area_const";
                 "tarifa"; "TARIFA PROPUESTA"; "VLR_IPU_2025"; "IPU LEY 44"];
     rows :=
       [ sample_row NaN (Num 1) (Some 1) None (Some 30) (Some 5) (Some 5);
         sample_row NaN (Num 2) (Some 2) None (Some 60) (Some 5) (Some 6) ] |}.

Definition unvalued_data : list DerivedRecord :=
  Eval vm_compute in
    match load_data (one_sheet unvalued_df) default_path with
    | inr data => data
    | inl _ => []
    end.

(** A sheet whose largest valuation, 300.5, is not a whole number. *)
Definition fractional_df : DataFrame :=
  {| columns := ["clase"; "ESTRATO"; "DESTINACION"; "avaluo2024"; "area_const";
                 "tarifa"; "TARIFA PROPUESTA"; "VLR_IPU_2025"; "IPU LEY 44"];
     rows :=
       [ sample_row NaN (Num 1) (Some 1) (Some 100) (Some 30) (Some 5) (Some 5);
         sample_row NaN (Num 2) (Some 2) (Some 200) (Some 60) (Some 5) (Some 6);
         sample_row NaN (Num 1) (Some 3) (Some (601 # 2)) (Some 90) (Some 6) (Some 5) ] |}.

Definition fractional_data : list DerivedRecord :=
  Eval vm_compute in
    match load_data (one_sheet fractional_df) default_path with
    | inr data => data
    | inl _ => []
    end.

Definition sample_view : list DerivedRecord :=
  Eval vm_compute in
    match df_filt_default sample_data with
    | inr view => view
    | inl _ => []
    end.

Definition fractional_view : list DerivedRecord :=
  Eval vm_compute in
    match df_filt_default fractional_data with
    | inr view => view
    | inl _ => []
    end.

(** * Properties *)

(** ** Lists *)

Lemma combine_map_same {A B C : Type} (f : A -> B) (g : A -> C) (l : list A) :
  combine (map f l) (map g l) = map (fun a => (f a, g a)) l.
Proof.
  induction l as [|a l IH]; simpl; [reflexivity|].
  now rewrite IH.
Qed.

Lemma combine_map_r {A B : Type} (f : A -> B) (l : list A) :
  combine l (map f l) = map (fun a => (a, f a)) l.
Proof.
  induction l as [|a l IH]; simpl; [reflexivity|].
  now rewrite IH.
Qed.

Lemma filter_length_le_pointwise {A : Type} (p q : A -> bool) (l : list A) :
  (forall a, In a l -> p a = true -> q a = true) ->
  (length (filter p l) <= length (filter q l))%nat.
Proof.
  induction l as [|a l IH]; simpl; intros H; [lia|].
  assert (IH' : (length (filter p l) <= length (filter q l))%nat).
  { apply IH. intros b Hb. apply H. now right. }
  destruct (p a) eqn:Hp.
  - rewrite (H a (or_introl eq_refl) Hp). simpl. lia.
  - destruct (q a); simpl; lia.
Qed.

Lemma filter_filter {A : Type} (p q : A -> bool) (l : list A) :
  filter q (filter p l) = filter (fun a => p a && q a) l.
Proof.
  induction l as [|a l IH]; simpl; [reflexivity|].
  destruct (p a); simpl; [destruct (q a)|]; now rewrite IH.
Qed.

Lemma filter_none {A : Type} (p : A -> bool) (l : list A) :
  (forall a, In a l -> p a = false) -> filter p l = [].
Proof.
  induction l as [|a l IH]; simpl; intros H; [reflexivity|].
  rewrite (H a (or_introl eq_refl)). apply IH. intros b Hb. apply H. now right.
Qed.

(** ** The shape of the loader's result *)

Lemma rango_area_const_of_eq (col : list (option Q)) :
  rango_area_const_of col = inr (map area_band col).
Proof. reflexivity. Qed.

Lemma cut_inr_map x bins labels lowest drop out :
  cut x bins labels lowest drop = inr out -> exists f, out = map f x.
Proof.
  unfold cut, raise, ret.
  destruct (negb (is_monotonic_increasing bins)); [discriminate|].
  set (dup := (Nat.ltb _ _ && negb (Nat.eqb (length bins) 2))%bool).
  destruct (dup && negb drop)%bool; [discriminate|].
  destruct (if dup then _ else _) as [|first bs].
  - destruct lowest; [discriminate|]. destruct (has_duplicates labels); discriminate.
  - destruct (has_duplicates labels); [discriminate|].
    match goal with |- context [if negb ?c then _ else _] => destruct c end;
      simpl; [|discriminate].
    intros [= <-]. eauto.
Qed.

Lemma rango_avaluo_2024_of_map col out :
  rango_avaluo_2024_of col = inr out -> exists f, out = map f col.
Proof.
  unfold rango_avaluo_2024_of.
  destruct (Nat.ltb 0 (notna_sum col)).
  - apply cut_inr_map.
  - intros [= <-]. eauto.
Qed.

(** Every row of the loaded table comes from a row that survived the
    exclusion, in order, with the derived columns computed from it. *)
Lemma load_data_shape fs path data :
  load_data fs path = inr data ->
  exists df f,
    read_excel fs path "MATRIZ" = inr df /\
    rango_avaluo_2024_of (map avaluo2024 (exclude_NO df))
      = inr (map f (map avaluo2024 (exclude_NO df))) /\
    data = map (fun r => derive (in_columns "DIFERENCIA EN EL VALOR" df)
                           (r, (f (avaluo2024 r), area_band (area_const r))))
               (exclude_NO df).
Proof.
  unfold load_data, bind.
  destruct (read_excel fs path "MATRIZ") as [e|df]; [discriminate|].
  destruct (rango_avaluo_2024_of _) as [e|av] eqn:Hav; [discriminate|].
  rewrite rango_area_const_of_eq. unfold ret. intros [= <-].
  destruct (rango_avaluo_2024_of_map _ _ Hav) as [f ->].
  exists df, f. split; [reflexivity|]. split; [exact Hav|].
  rewrite !map_map, combine_map_same, combine_map_r, map_map. reflexivity.
Qed.

Lemma load_data_row fs path data d :
  load_data fs path = inr data -> In d data ->
  exists df band,
    read_excel fs path "MATRIZ" = inr df /\
    In (source d) (exclude_NO df) /\
    d = derive (in_columns "DIFERENCIA EN EL VALOR" df)
          (source d, (band, area_band (area_const (source d)))).
Proof.
  intros Hload Hin.
  destruct (load_data_shape _ _ _ Hload) as (df & f & Hread & _ & ->).
  apply in_map_iff in Hin. destruct Hin as (r & <- & Hr).
  exists df, (f (avaluo2024 r)). simpl. auto.
Qed.

Lemma sample_data_loaded : load_data sample_fs default_path = inr sample_data.
Proof. vm_compute. reflexivity. Qed.

Lemma loaded_columns fs path data d :
  load_data fs path = inr data -> In d data ->
  zona d = zona_of (clase (source d)) /\
  estrato_cat d = estrato_cat_of (ESTRATO (source d)) /\
  rango_area_const d = area_band (area_const (source d)) /\
  cambio_tarifa d = num_sub (TARIFA_PROPUESTA (source d)) (tarifa (source d)) /\
  situacion_tarifa d = situacion_tarifa_of (cambio_tarifa d).
Proof.
  intros Hload Hin.
  destruct (load_data_row _ _ _ _ Hload Hin) as (df & band & _ & _ & Hd).
  rewrite Hd. simpl. repeat split.
Qed.

(** ** Zona *)

Lemma zona_of_Num q :
  zona_of (Num q) =
    if Qeq_bool q 1 then "URBANO" else if Qeq_bool q 2 then "RURAL" else "SIN CLASE".
Proof.
  unfold zona_of. simpl.
  destruct (Qeq_bool q 1); [reflexivity|].
  destruct (Qeq_bool q 2); reflexivity.
Qed.

(** C5. In every row of the loaded table, [zona] is URBANO when [clase] is
    the number 1, RURAL when it is the number 2, and SIN CLASE for every
    other number, for a text cell and for a missing cell. *)
Theorem zona_mapping fs path data d :
  load_data fs path = inr data -> In d data ->
  (forall q, clase (source d) = Num q -> q == 1 -> zona d = "URBANO") /\
  (forall q, clase (source d) = Num q -> q == 2 -> zona d = "RURAL") /\
  (forall q, clase (source d) = Num q -> ~ q == 1 -> ~ q == 2 ->
     zona d = "SIN CLASE") /\
  (forall s, clase (source d) = Str s -> zona d = "SIN CLASE") /\
  (clase (source d) = NaN -> zona d = "SIN CLASE").
Proof.
  intros Hload Hin.
  destruct (loaded_columns _ _ _ _ Hload Hin) as (Hz & _).
  rewrite Hz. repeat split.
  - intros q -> Hq. rewrite zona_of_Num.
    apply Qeq_bool_iff in Hq. now rewrite Hq.
  - intros q -> Hq. rewrite zona_of_Num.
    destruct (Qeq_bool q 1) eqn:H1.
    + apply Qeq_bool_iff in H1. rewrite H1 in Hq. discriminate Hq.
    + apply Qeq_bool_iff in Hq. now rewrite Hq.
  - intros q -> H1 H2. rewrite zona_of_Num.
    destruct (Qeq_bool q 1) eqn:E1; [apply Qeq_bool_iff in E1; contradiction|].
    destruct (Qeq_bool q 2) eqn:E2; [apply Qeq_bool_iff in E2; contradiction|].
    reflexivity.
  - intros s ->. reflexivity.
  - intros ->. reflexivity.
Qed.

Lemma zona_mapping_witness :
  load_data sample_fs default_path = inr sample_data /\
  In (sample_at 0) sample_data /\
  clase (source (sample_at 0)) = Num 1 /\
  zona (sample_at 0) = "URBANO".
Proof.
  assert (Hload : load_data sample_fs default_path = inr sample_data)
    by (vm_compute; reflexivity).
  assert (Hin : In (sample_at 0) sample_data) by (left; reflexivity).
  split; [exact Hload|]. split; [exact Hin|]. split; [reflexivity|].
  destruct (zona_mapping _ _ _ _ Hload Hin) as (H1 & _).
  apply (H1 1); reflexivity.
Defined.

(** ** Estrato *)

Lemma astype_int_inject_Z q z : q == inject_Z z -> astype_int q = z.
Proof.
  unfold Qeq, astype_int. simpl. intros H.
  rewrite Z.mul_1_r in H. rewrite H. apply Z.quot_mul. discriminate.
Qed.

Lemma to_int_not_nil z :
  Z.to_int z <> Decimal.Pos Decimal.Nil /\ Z.to_int z <> Decimal.Neg Decimal.Nil.
Proof.
  destruct z as [|p|p]; simpl; split; try discriminate;
    intros [= H]; revert H; apply DecimalPos.Unsigned.to_uint_nonnil.
Qed.

(** Python's [str] is injective on integers. *)
Lemma astype_str_inj a b : astype_str a = astype_str b -> a = b.
Proof.
  unfold astype_str. intros H.
  assert (Hi : Some (Z.to_int a) = Some (Z.to_int b)).
  { destruct (to_int_not_nil a) as [Ha1 Ha2].
    destruct (to_int_not_nil b) as [Hb1 Hb2].
    rewrite <- (NilZero.isi _ Ha1 Ha2), <- (NilZero.isi _ Hb1 Hb2).
    now rewrite H. }
  injection Hi as Hi.
  rewrite <- (DecimalZ.of_to a), <- (DecimalZ.of_to b). now rewrite Hi.
Qed.

(** The text of a stratum: the float is cut to an integer first, so every
    value strictly between -1 and 1 ends as SIN ESTRATO too. *)
Lemma estrato_cat_of_Some q :
  estrato_cat_of (Some q) =
    if Z.eqb (astype_int q) 0 then "SIN ESTRATO" else astype_str (astype_int q).
Proof.
  unfold estrato_cat_of. simpl.
  destruct (Z.eqb_spec (astype_int q) 0) as [->|Hz]; [reflexivity|].
  destruct (String.eqb_spec (astype_str (astype_int q)) "0") as [E|E]; [|reflexivity].
  exfalso. apply Hz. apply astype_str_inj. exact E.
Qed.

Lemma estrato_cat_of_integer q z :
  q == inject_Z z ->
  estrato_cat_of (Some q) = if Z.eqb z 0 then "SIN ESTRATO" else astype_str z.
Proof.
  intros Hq. now rewrite estrato_cat_of_Some, (astype_int_inject_Z _ _ Hq).
Qed.

(** C6. In every row of the loaded table, [estrato_cat] is SIN ESTRATO when
    ESTRATO is missing or is 0, and is the decimal text of ESTRATO when
    ESTRATO is any other integer of the int64 range, the range of the cast
    [astype(int)]. *)
Theorem estrato_cat_mapping fs path data d :
  load_data fs path = inr data -> In d data ->
  (ESTRATO (source d) = None -> estrato_cat d = "SIN ESTRATO") /\
  (forall q, ESTRATO (source d) = Some q -> q == 0 ->
     estrato_cat d = "SIN ESTRATO") /\
  (forall q z, ESTRATO (source d) = Some q -> q == inject_Z z ->
     in_int64 z -> z <> 0%Z ->
     estrato_cat d = astype_str z).
Proof.
  intros Hload Hin.
  destruct (loaded_columns _ _ _ _ Hload Hin) as (_ & He & _).
  rewrite He. repeat split.
  - intros ->. reflexivity.
  - intros q -> Hq. now rewrite (estrato_cat_of_integer q 0 Hq).
  - intros q z -> Hq _ Hz. rewrite (estrato_cat_of_integer q z Hq).
    destruct (Z.eqb_spec z 0); [contradiction|reflexivity].
Qed.

Lemma estrato_cat_mapping_witness :
  load_data sample_fs default_path = inr sample_data /\
  In (sample_at 0) sample_data /\
  ESTRATO (source (sample_at 0)) = Some 2 /\
  in_int64 2 /\
  estrato_cat (sample_at 0) = "2".
Proof.
  assert (Hload : load_data sample_fs default_path = inr sample_data)
    by (vm_compute; reflexivity).
  assert (Hin : In (sample_at 0) sample_data) by (left; reflexivity).
  assert (Hr : in_int64 2) by (unfold in_int64; lia).
  split; [exact Hload|]. split; [exact Hin|]. split; [reflexivity|].
  split; [exact Hr|].
  destruct (estrato_cat_mapping _ _ _ _ Hload Hin) as (_ & _ & H3).
  apply (H3 2 2%Z); [reflexivity | reflexivity | exact Hr | discriminate].
Defined.

(** ** Comparisons of rationals *)

Lemma Qle_bool_reflect a b : reflect (a <= b) (Qle_bool a b).
Proof. apply iff_reflect. symmetry. apply Qle_bool_iff. Qed.

Lemma Qeq_bool_reflect a b : reflect (a == b) (Qeq_bool a b).
Proof. apply iff_reflect. symmetry. apply Qeq_bool_iff. Qed.

Ltac q_cases :=
  repeat match goal with
  | |- context [Qle_bool ?a ?b] => destruct (Qle_bool_reflect a b)
  | |- context [Qeq_bool ?a ?b] => destruct (Qeq_bool_reflect a b)
  end.

(** ** Tariff situation *)

Lemma situacion_tarifa_of_diff p t :
  situacion_tarifa_of (Some (p - t)) =
    if negb (Qle_bool t p) then "Baja tarifa"
    else if Qeq_bool p t then "Misma tarifa"
    else "Sube tarifa".
Proof.
  unfold situacion_tarifa_of, sign_select, num_lt, num_eq, num_gt. simpl.
  q_cases; simpl; try reflexivity; exfalso; lra.
Qed.

(** C3. In a row of the loaded table whose two tariffs are defined,
    [situacion_tarifa] is Sube tarifa exactly when the proposed tariff is
    above the current one, Baja tarifa exactly when it is below, Misma
    tarifa exactly when they are equal, and never Sin dato. *)
Theorem tariff_situation fs path data d t p :
  load_data fs path = inr data -> In d data ->
  tarifa (source d) = Some t -> TARIFA_PROPUESTA (source d) = Some p ->
  (situacion_tarifa d = "Sube tarifa" <-> t < p) /\
  (situacion_tarifa d = "Baja tarifa" <-> p < t) /\
  (situacion_tarifa d = "Misma tarifa" <-> p == t) /\
  situacion_tarifa d <> "Sin dato".
Proof.
  intros Hload Hin Ht Hp.
  destruct (loaded_columns _ _ _ _ Hload Hin) as (_ & _ & _ & Hc & Hs).
  rewrite Hs, Hc, Ht, Hp. simpl num_sub. rewrite situacion_tarifa_of_diff.
  q_cases; simpl; repeat split; intros; try discriminate; try lra;
    try reflexivity; exfalso; lra.
Qed.

Lemma tariff_situation_witness :
  load_data sample_fs default_path = inr sample_data /\
  In (sample_at 0) sample_data /\
  tarifa (source (sample_at 0)) = Some 5 /\
  TARIFA_PROPUESTA (source (sample_at 0)) = Some 4 /\
  (situacion_tarifa (sample_at 0) = "Baja tarifa" <-> 4 < 5).
Proof.
  assert (Hload : load_data sample_fs default_path = inr sample_data)
    by (vm_compute; reflexivity).
  assert (Hin : In (sample_at 0) sample_data) by (left; reflexivity).
  split; [exact Hload|]. split; [exact Hin|].
  split; [reflexivity|]. split; [reflexivity|].
  exact (proj1 (proj2 (tariff_situation _ _ _ _ 5 4 Hload Hin eq_refl eq_refl))).
Defined.

(** ** Area bands *)

Lemma area_band_Some a :
  area_band (Some a) =
    if negb (Qle_bool 0 a) then None
    else if Qle_bool a 35 then Some "0 - 35 m²"
    else if Qle_bool a 70 then Some "35 - 70 m²"
    else if Qle_bool a 120 then Some "70 - 120 m²"
    else Some "Más de 120 m²".
Proof.
  unfold area_band, cut_cell, area_bins. simpl.
  q_cases; simpl; try reflexivity; exfalso; lra.
Qed.

(** A negative area is below the first edge and gets no band. *)
Lemma area_band_negative a : a < 0 -> area_band (Some a) = None.
Proof.
  intros H. rewrite area_band_Some. q_cases; simpl; try reflexivity; exfalso; lra.
Qed.

(** C7. In a row of the loaded table whose [area_const] is defined (an
    area, so not negative), [rango_area_const] is one of the four fixed
    labels, chosen by the area alone: [0,35], (35,70], (70,120], above 120;
    a value on an edge belongs to the band below it. *)
Theorem area_band_fixed fs path data d a :
  load_data fs path = inr data -> In d data ->
  area_const (source d) = Some a -> 0 <= a ->
  (exists l, In l area_labels /\ rango_area_const d = Some l) /\
  (a <= 35 -> rango_area_const d = Some "0 - 35 m²") /\
  (35 < a -> a <= 70 -> rango_area_const d = Some "35 - 70 m²") /\
  (70 < a -> a <= 120 -> rango_area_const d = Some "70 - 120 m²") /\
  (120 < a -> rango_area_const d = Some "Más de 120 m²").
Proof.
  intros Hload Hin Ha Hpos.
  destruct (loaded_columns _ _ _ _ Hload Hin) as (_ & _ & Hr & _).
  rewrite Hr, Ha, area_band_Some. unfold area_labels.
  q_cases; simpl; repeat split; intros; try reflexivity; try (exfalso; lra);
    eexists; (split; [|reflexivity]); simpl; tauto.
Qed.

Lemma area_band_fixed_witness :
  load_data sample_fs default_path = inr sample_data /\
  In (sample_at 0) sample_data /\
  area_const (source (sample_at 0)) = Some 35 /\
  0 <= 35 /\
  rango_area_const (sample_at 0) = Some "0 - 35 m²".
Proof.
  assert (Hload : load_data sample_fs default_path = inr sample_data)
    by (vm_compute; reflexivity).
  assert (Hin : In (sample_at 0) sample_data) by (left; reflexivity).
  assert (Hpos : 0 <= 35) by (unfold Qle; simpl; lia).
  split; [exact Hload|]. split; [exact Hin|].
  split; [reflexivity|]. split; [exact Hpos|].
  apply (proj1 (proj2 (area_band_fixed _ _ _ _ 35 Hload Hin eq_refl Hpos))).
  unfold Qle; simpl; lia.
Defined.

(** Outside the data model: the last row of the sample sheet has
    [area_const = -1] and gets no band. *)
Lemma area_band_negative_unbanded :
  load_data sample_fs default_path = inr sample_data /\
  In (sample_at 3) sample_data /\
  area_const (source (sample_at 3)) = Some (-1) /\
  rango_area_const (sample_at 3) = None.
Proof.
  split; [vm_compute; reflexivity|].
  split; [do 3 right; left; reflexivity|].
  split; reflexivity.
Qed.

(** ** Exclusion of rows marked NO *)

Lemma cell_ne_Str c s : cell_ne c (Str s) = true <-> c <> Str s.
Proof.
  unfold cell_ne, cell_eqb. destruct c as [|q|s']; simpl.
  - split; [discriminate|reflexivity].
  - split; [discriminate|reflexivity].
  - destruct (String.eqb_spec s' s) as [->|Hne]; simpl.
    + split; [discriminate|]. intros H. now elim H.
    + split; [|reflexivity]. intros _ [= E]. contradiction.
Qed.

Lemma load_data_sources fs path df data :
  read_excel fs path "MATRIZ" = inr df ->
  load_data fs path = inr data ->
  map source data = exclude_NO df.
Proof.
  intros Hread Hload.
  destruct (load_data_shape _ _ _ Hload) as (df' & f & Hread' & _ & ->).
  rewrite Hread in Hread'. injection Hread' as <-.
  rewrite map_map. simpl. apply map_id.
Qed.

Lemma df_filt_conj data zona_sel estrato_sel dest_sel aval_rango area_rango :
  df_filt data zona_sel estrato_sel dest_sel aval_rango area_rango =
  filter (fun r =>
      isin (Some (zona r)) zona_sel
      && (isin (Some (estrato_cat r)) estrato_sel
      && (isin (DESTINACION (source r)) dest_sel
      && ((num_ge (avaluo2024 (source r)) (inject_Z (fst aval_rango))
           && num_le (avaluo2024 (source r)) (inject_Z (snd aval_rango)))
      && (num_ge (area_const (source r)) (fst area_rango)
          && num_le (area_const (source r)) (snd area_rango)))))) data.
Proof. unfold df_filt. now rewrite !filter_filter. Qed.

Lemma df_filt_incl data zona_sel estrato_sel dest_sel aval_rango area_rango d :
  In d (df_filt data zona_sel estrato_sel dest_sel aval_rango area_rango) ->
  In d data.
Proof. rewrite df_filt_conj. intros H. now apply filter_In in H. Qed.

(** C4. Whatever the sheet, no row of the loaded table, and so no row of a
    filtered view of it, has the text NO in its NO column. *)
Theorem exclusion fs path df data :
  read_excel fs path "MATRIZ" = inr df ->
  load_data fs path = inr data ->
  (forall d, In d data -> NO_column df (source d) <> Some (Str "NO")) /\
  (forall zona_sel estrato_sel dest_sel aval_rango area_rango d,
     In d (df_filt data zona_sel estrato_sel dest_sel aval_rango area_rango) ->
     NO_column df (source d) <> Some (Str "NO")).
Proof.
  intros Hread Hload.
  assert (H : forall d, In d data -> NO_column df (source d) <> Some (Str "NO")).
  { intros d Hin.
    assert (Hs : In (source d) (exclude_NO df)).
    { rewrite <- (load_data_sources _ _ _ _ Hread Hload). now apply in_map. }
    unfold NO_column, exclude_NO in *.
    destruct (in_columns "NO" df); [|discriminate].
    apply filter_In in Hs. destruct Hs as [_ Hne].
    apply cell_ne_Str in Hne. intros [= E]. contradiction. }
  split; [exact H|].
  intros zs es ds av ar d Hin. apply H. eapply df_filt_incl; eauto.
Qed.

Lemma exclusion_witness :
  read_excel sample_fs default_path "MATRIZ" = inr sample_df /\
  load_data sample_fs default_path = inr sample_data /\
  In (sample_at 1) sample_data /\
  NO_column sample_df (source (sample_at 1)) <> Some (Str "NO").
Proof.
  assert (Hread : read_excel sample_fs default_path "MATRIZ" = inr sample_df)
    by reflexivity.
  assert (Hload : load_data sample_fs default_path = inr sample_data)
    by (vm_compute; reflexivity).
  assert (Hin : In (sample_at 1) sample_data) by (right; left; reflexivity).
  split; [exact Hread|]. split; [exact Hload|]. split; [exact Hin|].
  exact (proj1 (exclusion _ _ _ _ Hread Hload) _ Hin).
Defined.

(** C10. When the sheet has a NO column, every row whose NO cell is not
    exactly the text NO (a missing cell, a number, any other text) is kept:
    it is the source of a row of the loaded table. The kept rows are the
    sheet's rows without the excluded ones, in the sheet's order. *)
Theorem NO_exact_match_only fs path df data :
  read_excel fs path "MATRIZ" = inr df ->
  load_data fs path = inr data ->
  in_columns "NO" df = true ->
  (forall r, In r (rows df) -> NO r <> Str "NO" ->
     exists d, In d data /\ source d = r) /\
  map source data = filter (fun r => cell_ne (NO r) (Str "NO")) (rows df).
Proof.
  intros Hread Hload Hcol.
  assert (Hs : map source data
               = filter (fun r => cell_ne (NO r) (Str "NO")) (rows df)).
  { rewrite (load_data_sources _ _ _ _ Hread Hload).
    unfold exclude_NO. now rewrite Hcol. }
  split; [|exact Hs].
  intros r Hr Hne.
  assert (Hin : In r (map source data)).
  { rewrite Hs. apply filter_In. split; [exact Hr|]. now apply cell_ne_Str. }
  apply in_map_iff in Hin. destruct Hin as (d & Hd & Hin). eauto.
Qed.

Lemma NO_exact_match_only_witness :
  read_excel sample_fs default_path "MATRIZ" = inr sample_df /\
  load_data sample_fs default_path = inr sample_data /\
  in_columns "NO" sample_df = true /\
  In (nth 2 (rows sample_df) (source blank_record)) (rows sample_df) /\
  NO (nth 2 (rows sample_df) (source blank_record)) = Str "no" /\
  exists d, In d sample_data /\
            source d = nth 2 (rows sample_df) (source blank_record).
Proof.
  assert (Hread : read_excel sample_fs default_path "MATRIZ" = inr sample_df)
    by reflexivity.
  assert (Hload : load_data sample_fs default_path = inr sample_data)
    by (vm_compute; reflexivity).
  assert (Hin : In (nth 2 (rows sample_df) (source blank_record)) (rows sample_df))
    by (do 2 right; left; reflexivity).
  split; [exact Hread|]. split; [exact Hload|].
  split; [reflexivity|]. split; [exact Hin|]. split; [reflexivity|].
  apply (proj1 (NO_exact_match_only _ _ _ _ Hread Hload eq_refl) _ Hin).
  discriminate.
Defined.

(** ** The filter *)

Lemma isin_Some s values : isin (Some s) values = true <-> In s values.
Proof.
  simpl. rewrite existsb_exists. split.
  - intros (x & Hx & E). apply String.eqb_eq in E. now subst.
  - intros H. exists s. split; [exact H|apply String.eqb_refl].
Qed.

Lemma isin_option c values :
  isin c values = true <-> exists s, c = Some s /\ In s values.
Proof.
  destruct c as [s|].
  - rewrite isin_Some. split; [eauto|]. now intros (s' & [= <-] & H).
  - simpl. split; [discriminate|]. now intros (s & [=] & _).
Qed.

Lemma isin_nil c : isin c [] = false.
Proof. now destruct c. Qed.

Lemma in_range x lo hi :
  num_ge x lo && num_le x hi = true <-> exists a, x = Some a /\ lo <= a <= hi.
Proof.
  destruct x as [a|]; simpl.
  - rewrite andb_true_iff, !Qle_bool_iff. split; [eauto|].
    now intros (a' & [= <-] & H).
  - split; [discriminate|]. now intros (a & [=] & _).
Qed.

Lemma in_range_inverted x lo hi : hi < lo -> num_ge x lo && num_le x hi = false.
Proof.
  intros H. destruct (num_ge x lo && num_le x hi) eqn:E; [|reflexivity].
  apply in_range in E. destruct E as (a & _ & H1 & H2). exfalso. lra.
Qed.

(** C8. An empty selection of zones, of strata or of destinations leaves no
    row, whatever the other criteria; and a row is in the filtered table
    exactly when it is in the table and meets all five criteria. *)
Theorem filter_conjunction data zona_sel estrato_sel dest_sel aval_rango area_rango :
  df_filt data [] estrato_sel dest_sel aval_rango area_rango = [] /\
  df_filt data zona_sel [] dest_sel aval_rango area_rango = [] /\
  df_filt data zona_sel estrato_sel [] aval_rango area_rango = [] /\
  (forall d,
     In d (df_filt data zona_sel estrato_sel dest_sel aval_rango area_rango) <->
     In d data /\
     In (zona d) zona_sel /\
     In (estrato_cat d) estrato_sel /\
     (exists s, DESTINACION (source d) = Some s /\ In s dest_sel) /\
     (exists a, avaluo2024 (source d) = Some a /\
                inject_Z (fst aval_rango) <= a <= inject_Z (snd aval_rango)) /\
     (exists a, area_const (source d) = Some a /\
                fst area_rango <= a <= snd area_rango)).
Proof.
  rewrite !df_filt_conj. split; [|split; [|split; [|intros d]]].
  - apply filter_none. intros. reflexivity.
  - apply filter_none. intros. rewrite isin_nil. apply andb_false_r.
  - apply filter_none. intros. rewrite isin_nil.
    now rewrite andb_false_l, !andb_false_r.
  - rewrite filter_In, !andb_true_iff.
    rewrite <- !isin_Some, <- isin_option, <- !in_range, !andb_true_iff. tauto.
Qed.

(** C9. The filtered table never has more rows than the table; and of two
    filters that differ only in the valuation range, the one whose range
    lies inside the other's keeps no more rows. *)
Theorem filter_monotone data zona_sel estrato_sel dest_sel lo hi lo' hi' area_rango :
  (length (df_filt data zona_sel estrato_sel dest_sel (lo, hi) area_rango)
     <= length data)%nat /\
  ((lo <= lo')%Z -> (hi' <= hi)%Z ->
   (length (df_filt data zona_sel estrato_sel dest_sel (lo', hi') area_rango)
      <= length (df_filt data zona_sel estrato_sel dest_sel (lo, hi) area_rango))%nat).
Proof.
  rewrite !df_filt_conj. split.
  - apply filter_length_le.
  - intros Hlo Hhi. apply filter_length_le_pointwise. intros d _.
    rewrite !andb_true_iff. simpl fst. simpl snd.
    intros (Hz & He & Hd & Hav & Har). repeat split; try tauto.
    + destruct Hav as [H _]. destruct (avaluo2024 (source d)) as [a|]; simpl in *;
        [|discriminate].
      apply Qle_bool_iff in H. apply Qle_bool_iff.
      rewrite Zle_Qle in Hlo. lra.
    + destruct Hav as [_ H]. destruct (avaluo2024 (source d)) as [a|]; simpl in *;
        [|discriminate].
      apply Qle_bool_iff in H. apply Qle_bool_iff.
      rewrite Zle_Qle in Hhi. lra.
Qed.

Lemma filter_monotone_witness :
  (100 <= 150)%Z /\ (250 <= 300)%Z /\
  (length (df_filt sample_data all_zonas all_estratos all_destinaciones
             (150, 250)%Z area_0_200)
   <= length (df_filt sample_data all_zonas all_estratos all_destinaciones
                (100, 300)%Z area_0_200))%nat.
Proof.
  assert (H1 : (100 <= 150)%Z) by lia.
  assert (H2 : (250 <= 300)%Z) by lia.
  split; [exact H1|]. split; [exact H2|].
  exact (proj2 (filter_monotone sample_data all_zonas all_estratos
                  all_destinaciones 100 300 150 250 area_0_200) H1 H2).
Defined.

(** C2, amended. A valuation range or an area range whose lower bound is
    above its upper bound raises nothing: the filter returns, and what it
    returns is the empty table. *)
Theorem inverted_range_empty data zona_sel estrato_sel dest_sel aval_rango area_rango :
  (snd aval_rango < fst aval_rango)%Z \/ snd area_rango < fst area_rango ->
  run_filter data zona_sel estrato_sel dest_sel aval_rango area_rango = inr [].
Proof.
  intros H. unfold run_filter, ret. f_equal.
  rewrite df_filt_conj. apply filter_none. intros d _.
  destruct H as [H|H].
  - rewrite Zlt_Qlt in H. rewrite (in_range_inverted _ _ _ H).
    now rewrite andb_false_l, !andb_false_r.
  - rewrite (in_range_inverted _ _ _ H). now rewrite !andb_false_r.
Qed.

Lemma inverted_range_empty_witness :
  (snd (300, 100)%Z < fst (300, 100)%Z)%Z /\
  run_filter sample_data all_zonas all_estratos all_destinaciones
    (300, 100)%Z area_0_200 = inr [].
Proof.
  assert (H : (snd (300, 100)%Z < fst (300, 100)%Z)%Z) by (simpl; lia).
  split; [exact H|].
  exact (inverted_range_empty sample_data all_zonas all_estratos
           all_destinaciones (300, 100)%Z area_0_200 (or_introl H)).
Defined.

(** C2 as stated fails: with the valuation slider inverted, the filter on
    the sample table returns the empty table, where the same filter with
    the bounds in order keeps three rows; it raises no exception. *)
Lemma inverted_range_no_error :
  run_filter sample_data all_zonas all_estratos all_destinaciones
    (300, 100)%Z area_0_200 = inr [] /\
  length (df_filt sample_data all_zonas all_estratos all_destinaciones
            (100, 300)%Z area_0_200) = 3%nat.
Proof. split; vm_compute; reflexivity. Qed.

(** ** Quantile bands when every valuation is the same *)

Section IdenticalValues.

Variable v : Q.

Let same (x : Q) : Prop := x == v.

Lemma insert_sorted_same x l :
  same x -> Forall same l -> Forall same (insert_sorted x l).
Proof.
  intros Hx Hl. induction Hl as [|y l Hy Hl IH]; simpl.
  - now constructor.
  - destruct (Qle_bool x y); repeat constructor; assumption.
Qed.

Lemma sort_same l : Forall same l -> Forall same (sort l).
Proof.
  induction 1 as [|x l Hx Hl IH]; simpl; [constructor|].
  now apply insert_sorted_same.
Qed.

Lemma insert_sorted_length x l : length (insert_sorted x l) = S (length l).
Proof.
  induction l as [|y l IH]; simpl; [reflexivity|].
  destruct (Qle_bool x y); simpl; [reflexivity|now rewrite IH].
Qed.

Lemma sort_length l : length (sort l) = length l.
Proof.
  induction l as [|x l IH]; simpl; [reflexivity|].
  now rewrite insert_sorted_length, IH.
Qed.

Lemma nth_same l i : Forall same l -> (i < length l)%nat -> nth i l 0 == v.
Proof.
  intros Hl Hi. rewrite Forall_forall in Hl. apply Hl. now apply nth_In.
Qed.

(** A quantile of equal values is that value. *)
Lemma quantile_sorted_same l q :
  Forall same l -> l <> [] -> 0 <= q -> q <= 1 -> quantile_sorted l q == v.
Proof.
  intros Hl Hne Hq0 Hq1. unfold quantile_sorted.
  assert (Hn : (0 < length l)%nat) by (destruct l; [contradiction|simpl; lia]).
  set (vi := (inject_Z (Z.of_nat (length l)) - 1) * q).
  assert (Hvi : vi <= inject_Z (Z.of_nat (length l) - 1)).
  { unfold vi, Zminus. rewrite inject_Z_plus.
    assert (H0 : 1 <= inject_Z (Z.of_nat (length l))).
    { change 1 with (inject_Z 1). rewrite <- Zle_Qle. lia. }
    change (inject_Z (Z.opp 1)) with (Qopp 1).
    generalize dependent (inject_Z (Z.of_nat (length l))). intros N _ H0.
    assert (H1 : q * (N - 1) <= 1 * (N - 1)).
    { apply Qmult_le_compat_r; [exact Hq1|lra]. }
    lra. }
  assert (Hfl : (Qfloor vi <= Z.of_nat (length l) - 1)%Z).
  { rewrite <- (Qfloor_Z (Z.of_nat (length l) - 1)). now apply Qfloor_resp_le. }
  assert (Hprev : (Z.to_nat (Qfloor vi) < length l)%nat) by lia.
  assert (Hnext : (Nat.min (S (Z.to_nat (Qfloor vi))) (length l - 1) < length l)%nat)
    by lia.
  rewrite (nth_same l _ Hl Hprev), (nth_same l _ Hl Hnext). ring.
Qed.

Lemma dedup_sorted_same l :
  Forall same l -> l <> [] -> exists x, dedup_sorted l = [x] /\ x == v.
Proof.
  induction 1 as [|x l Hx Hl IH]; intros Hne; [contradiction|].
  destruct l as [|y l'].
  - exists x. split; [reflexivity|exact Hx].
  - change (dedup_sorted (x :: y :: l'))
      with (if Qeq_bool x y then dedup_sorted (y :: l') else x :: dedup_sorted (y :: l')).
    assert (Hy : same y) by (now inversion Hl).
    assert (E : Qeq_bool x y = true).
    { apply Qeq_bool_iff. unfold same in *. now rewrite Hx, Hy. }
    rewrite E. apply IH. discriminate.
Qed.

Lemma np_unique_same l :
  Forall same l -> l <> [] -> exists x, np_unique l = [x] /\ x == v.
Proof.
  intros Hl Hne. apply dedup_sorted_same.
  - now apply sort_same.
  - intros E. apply (f_equal (@length Q)) in E. rewrite sort_length in E.
    destruct l; [contradiction|discriminate].
Qed.

(** The column where every cell holds a value equal to [v]. *)
Let same_cell (c : option Q) : Prop := exists x, c = Some x /\ x == v.

Lemma dropna_same col : Forall same_cell col -> Forall same (dropna col).
Proof.
  induction 1 as [|c col (x & -> & Hx) Hcol IH]; simpl; [constructor|].
  now constructor.
Qed.

Lemma dropna_length col : Forall same_cell col -> length (dropna col) = length col.
Proof.
  induction 1 as [|c col (x & -> & Hx) Hcol IH]; simpl; [reflexivity|].
  now rewrite IH.
Qed.

Lemma notna_sum_same col : Forall same_cell col -> notna_sum col = length col.
Proof.
  unfold notna_sum.
  induction 1 as [|c col (x & -> & Hx) Hcol IH]; simpl; [reflexivity|].
  now rewrite IH.
Qed.

Lemma quantile_same col :
  Forall same_cell col -> col <> [] -> Forall same (quantile col quantile_points).
Proof.
  intros Hcol Hne. unfold quantile.
  assert (Hs : Forall same (sort (dropna col))) by (apply sort_same, dropna_same, Hcol).
  assert (Hn : sort (dropna col) <> []).
  { intros E. apply (f_equal (@length Q)) in E.
    rewrite sort_length, (dropna_length _ Hcol) in E.
    destruct col; [contradiction|discriminate]. }
  unfold quantile_points. simpl.
  repeat constructor; apply quantile_sorted_same; try assumption;
    unfold Qle; simpl; lia.
Qed.

(** With a single edge there is no band: every cell is left missing. *)
Lemma cut_cell_single_edge x c :
  x == v -> same_cell c -> cut_cell [Fin x] [] true (Fin x) c = None.
Proof.
  intros Hx (a & -> & Ha). unfold cut_cell. simpl.
  assert (E : Qeq_bool a x = true) by (apply Qeq_bool_iff; now rewrite Ha, Hx).
  rewrite E. destruct (negb (Qle_bool a x)); reflexivity.
Qed.

Lemma rango_avaluo_2024_of_same col :
  Forall same_cell col ->
  rango_avaluo_2024_of col = inr (map (fun _ => None) col).
Proof.
  intros Hcol. unfold rango_avaluo_2024_of.
  rewrite (notna_sum_same _ Hcol).
  destruct col as [|c col']; [reflexivity|].
  set (col := c :: col') in *. simpl Nat.ltb. cbv iota.
  assert (Hne : col <> []) by discriminate. clearbody col.
  destruct (np_unique_same (quantile col quantile_points)) as (x & Hu & Hx).
  - now apply quantile_same.
  - unfold quantile, quantile_points. discriminate.
  - rewrite Hu. unfold cut, ret. simpl. f_equal.
    apply map_ext_in. intros a Ha. apply cut_cell_single_edge; [exact Hx|].
    rewrite Forall_forall in Hcol. now apply Hcol.
Qed.

End IdenticalValues.

Lemma exclude_NO_incl df r : In r (exclude_NO df) -> In r (rows df).
Proof.
  unfold exclude_NO. destruct (in_columns "NO" df); [|trivial].
  intros H. now apply filter_In in H.
Qed.

(** C1, what the loader does. On a sheet whose rows all carry the same
    valuation the load succeeds and raises nothing, one loaded row per kept
    row; the six quantiles collapse to a single edge, which bounds no band,
    and [rango_avaluo_2024] is missing in every row. *)
Theorem identical_avaluo_no_band fs path df v :
  read_excel fs path "MATRIZ" = inr df ->
  (forall r, In r (rows df) -> exists x, avaluo2024 r = Some x /\ x == v) ->
  exists data,
    load_data fs path = inr data /\
    map source data = exclude_NO df /\
    forall d, In d data -> rango_avaluo_2024 d = None.
Proof.
  intros Hread Hsame.
  assert (Hcol : Forall (fun c => exists x, c = Some x /\ x == v)
                   (map avaluo2024 (exclude_NO df))).
  { apply Forall_forall. intros c Hc. apply in_map_iff in Hc.
    destruct Hc as (r & <- & Hr). apply Hsame. now apply exclude_NO_incl. }
  assert (Hload : load_data fs path
            = inr (map (fun r => derive (in_columns "DIFERENCIA EN EL VALOR" df)
                                   (r, (None, area_band (area_const r))))
                       (exclude_NO df))).
  { unfold load_data, bind. rewrite Hread.
    rewrite (rango_avaluo_2024_of_same v _ Hcol), rango_area_const_of_eq.
    unfold ret. f_equal.
    rewrite !map_map, combine_map_same, combine_map_r, map_map. reflexivity. }
  eexists. split; [exact Hload|]. split.
  - rewrite map_map. simpl. apply map_id.
  - intros d Hd. apply in_map_iff in Hd. destruct Hd as (r & <- & _). reflexivity.
Qed.

Lemma identical_avaluo_no_band_witness :
  read_excel tied_fs default_path "MATRIZ" = inr tied_df /\
  exists data,
    load_data tied_fs default_path = inr data /\
    map source data = exclude_NO tied_df /\
    forall d, In d data -> rango_avaluo_2024 d = None.
Proof.
  assert (Hread : read_excel tied_fs default_path "MATRIZ" = inr tied_df)
    by reflexivity.
  split; [exact Hread|].
  apply (identical_avaluo_no_band tied_fs default_path tied_df 100 Hread).
  intros r Hr. exists 100. split; [|reflexivity].
  simpl in Hr. destruct Hr as [<-|[<-|[<-|[]]]]; reflexivity.
Defined.

(** The loader on the tied sheet, evaluated: three rows, no valuation
    band in any of them. *)
Lemma tied_sheet_loaded :
  option_map (map rango_avaluo_2024)
    (match load_data tied_fs default_path with
     | inr data => Some data
     | inl _ => None
     end)
  = Some [None; None; None].
Proof. vm_compute. reflexivity. Qed.

(** Deduplicating the edges does not make the labels distinct: the
    nearly tied sheet leaves three edges, 1000, 1000.12 and 1000.3, both
    labels print the same, and [pd.cut] refuses them. *)
Lemma near_tied_sheet_raises :
  make_labels (np_unique (quantile (map avaluo2024 (rows near_tied_df)) quantile_points))
    = ["$1.000 - $1.000"; "$1.000 - $1.000"] /\
  load_data (one_sheet near_tied_df) default_path
    = inl labels_error.
Proof. split; vm_compute; reflexivity. Qed.

(** ** The scenario of three rows *)

Example scenario_three_rows :
  option_map (map (fun d => (zona d, situacion_tarifa d)))
    (match load_data (one_sheet scenario_df) default_path with
     | inr data => Some data
     | inl _ => None
     end)
  = Some [("URBANO", "Baja tarifa"); ("RURAL", "Misma tarifa");
          ("URBANO", "Misma tarifa")].
Proof. vm_compute. reflexivity. Qed.

(** A missing workbook is the only way [read_excel] reports
    [FileNotFoundError], and the loader passes it on. *)
Lemma load_data_missing_file fs path :
  fs path = None -> load_data fs path = inl FileNotFoundError.
Proof. intros H. unfold load_data, read_excel, bind. now rewrite H. Qed.

(** * Further properties of the loader *)

(** ** IPU situation *)

Lemma loaded_situacion_ipu fs path df data d :
  read_excel fs path "MATRIZ" = inr df ->
  load_data fs path = inr data -> In d data ->
  situacion_ipu d
  = situacion_ipu_of (in_columns "DIFERENCIA EN EL VALOR" df) (source d).
Proof.
  intros Hread Hload Hin.
  destruct (load_data_row _ _ _ _ Hload Hin) as (df' & band & Hread' & _ & Hd).
  rewrite Hread in Hread'. injection Hread' as <-.
  rewrite Hd at 1. reflexivity.
Qed.

Lemma sign_select_Some x lo eq hi :
  sign_select (Some x) [lo; eq; hi] =
    if negb (Qle_bool 0 x) then lo else if Qeq_bool x 0 then eq else hi.
Proof.
  unfold sign_select, num_lt, num_eq, num_gt. simpl.
  q_cases; simpl; try reflexivity; exfalso; lra.
Qed.

(** When the sheet has the column DIFERENCIA EN EL VALOR, a row whose
    difference is defined is Baja IPU exactly when it is negative, IPU
    igual exactly when it is zero and Sube IPU exactly when it is
    positive. *)
Theorem situacion_ipu_sign fs path df data d x :
  read_excel fs path "MATRIZ" = inr df ->
  load_data fs path = inr data -> In d data ->
  in_columns "DIFERENCIA EN EL VALOR" df = true ->
  DIFERENCIA_EN_EL_VALOR (source d) = Some x ->
  (situacion_ipu d = "Baja IPU" <-> x < 0) /\
  (situacion_ipu d = "IPU igual" <-> x == 0) /\
  (situacion_ipu d = "Sube IPU" <-> 0 < x).
Proof.
  intros Hread Hload Hin Hcol Hx.
  rewrite (loaded_situacion_ipu _ _ _ _ _ Hread Hload Hin), Hcol.
  unfold situacion_ipu_of. rewrite Hx, sign_select_Some.
  q_cases; simpl; repeat split; intros; try discriminate; try lra;
    try reflexivity; exfalso; lra.
Qed.

(** Without the column, and in a row where the difference is missing, the
    situation is Sin dato. *)
Theorem situacion_ipu_sin_dato fs path df data d :
  read_excel fs path "MATRIZ" = inr df ->
  load_data fs path = inr data -> In d data ->
  in_columns "DIFERENCIA EN EL VALOR" df = false
  \/ DIFERENCIA_EN_EL_VALOR (source d) = None ->
  situacion_ipu d = "Sin dato".
Proof.
  intros Hread Hload Hin H.
  rewrite (loaded_situacion_ipu _ _ _ _ _ Hread Hload Hin).
  unfold situacion_ipu_of. destruct H as [-> | H]; [reflexivity|].
  rewrite H. now destruct (in_columns _ df).
Qed.

(** ** Tariffs with a missing side *)

(** A row that lacks one of the two tariffs has no tariff change and is
    classified Sin dato. *)
Theorem missing_tariff_sin_dato fs path data d :
  load_data fs path = inr data -> In d data ->
  tarifa (source d) = None \/ TARIFA_PROPUESTA (source d) = None ->
  cambio_tarifa d = None /\ situacion_tarifa d = "Sin dato".
Proof.
  intros Hload Hin H.
  destruct (loaded_columns _ _ _ _ Hload Hin) as (_ & _ & _ & Hc & Hs).
  assert (E : cambio_tarifa d = None).
  { rewrite Hc. destruct H as [-> | ->]; [|now destruct (TARIFA_PROPUESTA _)].
    now destruct (TARIFA_PROPUESTA _). }
  split; [exact E|]. rewrite Hs, E. reflexivity.
Qed.

(** ** Stratum *)

Lemma astype_int_zero_iff q : astype_int q = 0%Z <-> -1 < q /\ q < 1.
Proof.
  unfold astype_int, Qlt. destruct q as [n d]. simpl.
  rewrite Z.mul_1_r, Z.quot_small_iff by discriminate. lia.
Qed.

(** [estrato_cat] is SIN ESTRATO exactly for a missing stratum and for a
    stratum strictly between -1 and 1: the float is truncated before it is
    printed, so 0.5 counts as no stratum. *)
Theorem estrato_sin_estrato_iff fs path data d :
  load_data fs path = inr data -> In d data ->
  (estrato_cat d = "SIN ESTRATO" <->
   ESTRATO (source d) = None
   \/ exists q, ESTRATO (source d) = Some q /\ -1 < q /\ q < 1).
Proof.
  intros Hload Hin.
  destruct (loaded_columns _ _ _ _ Hload Hin) as (_ & He & _).
  rewrite He. destruct (ESTRATO (source d)) as [q|].
  - rewrite estrato_cat_of_Some. destruct (Z.eqb_spec (astype_int q) 0) as [E|E].
    + split; [|reflexivity]. intros _. right. exists q. split; [reflexivity|].
      now apply astype_int_zero_iff.
    + split.
      * intros H. exfalso.
        destruct (to_int_not_nil (astype_int q)) as [H1 H2].
        pose proof (NilZero.isi _ H1 H2) as Hi.
        unfold astype_str in H. rewrite H in Hi. discriminate Hi.
      * intros [H|(q' & [= <-] & H)]; [discriminate|].
        apply astype_int_zero_iff in H. contradiction.
  - split; [now left|reflexivity].
Qed.

(** ** The quantile edges *)

Lemma insert_sorted_In x y l : In y (insert_sorted x l) <-> y = x \/ In y l.
Proof.
  induction l as [|z l IH]; simpl; [intuition congruence|].
  destruct (Qle_bool x z); simpl; [intuition congruence|].
  rewrite IH. intuition congruence.
Qed.

Lemma sort_In y l : In y (sort l) <-> In y l.
Proof.
  induction l as [|x l IH]; simpl; [tauto|].
  rewrite insert_sorted_In, IH. intuition congruence.
Qed.

Lemma insert_sorted_Forall (P : Q -> Prop) x l :
  P x -> Forall P l -> Forall P (insert_sorted x l).
Proof.
  intros Hx Hl. apply Forall_forall. intros y Hy.
  apply insert_sorted_In in Hy. destruct Hy as [->|Hy]; [exact Hx|].
  rewrite Forall_forall in Hl. now apply Hl.
Qed.

Lemma insert_sorted_sorted x l :
  StronglySorted Qle l -> StronglySorted Qle (insert_sorted x l).
Proof.
  induction 1 as [|y l Hl IH Hy]; simpl.
  - repeat constructor.
  - destruct (Qle_bool_reflect x y) as [Hxy|Hxy].
    + constructor; [now constructor|].
      constructor; [exact Hxy|].
      eapply Forall_impl; [|exact Hy]. intros z Hz. simpl in Hz. lra.
    + constructor; [exact IH|].
      apply insert_sorted_Forall; [lra|exact Hy].
Qed.

Lemma sort_sorted l : StronglySorted Qle (sort l).
Proof.
  induction l as [|x l IH]; simpl; [constructor|].
  now apply insert_sorted_sorted.
Qed.

Lemma dedup_sorted_cons2 x y l :
  dedup_sorted (x :: y :: l) =
    if Qeq_bool x y then dedup_sorted (y :: l) else x :: dedup_sorted (y :: l).
Proof. reflexivity. Qed.

Lemma dedup_sorted_incl x l : In x (dedup_sorted l) -> In x l.
Proof.
  induction l as [|a l IH]; [trivial|].
  destruct l as [|b l']; [trivial|].
  rewrite dedup_sorted_cons2. destruct (Qeq_bool a b).
  - intros H. right. now apply IH.
  - intros [->|H]; [now left|]. right. now apply IH.
Qed.

(** Deduplication loses no value: each one is still there up to
    equality of numbers. *)
Lemma dedup_sorted_covers x l :
  In x l -> exists y, In y (dedup_sorted l) /\ x == y.
Proof.
  revert x. induction l as [|a l IH]; intros x; [intros []|].
  destruct l as [|b l'].
  - intros [<-|[]]. exists a. split; [now left|reflexivity].
  - rewrite dedup_sorted_cons2. intros [<-|H].
    + destruct (Qeq_bool_reflect a b) as [E|E].
      * destruct (IH b (or_introl eq_refl)) as (y & Hy & Hby).
        exists y. split; [exact Hy|]. now rewrite E.
      * exists a. split; [now left|reflexivity].
    + destruct (IH x H) as (y & Hy & Hxy). exists y. split; [|exact Hxy].
      destruct (Qeq_bool a b); [exact Hy|now right].
Qed.


Lemma dedup_sorted_strict l :
  StronglySorted Qle l -> StronglySorted Qlt (dedup_sorted l).
Proof.
  induction 1 as [|a l Hl IH Ha]; [constructor|].
  destruct l as [|b l']; [repeat constructor|].
  rewrite dedup_sorted_cons2. destruct (Qeq_bool_reflect a b) as [E|E].
  - exact IH.
  - constructor; [exact IH|].
    apply Forall_forall. intros z Hz. apply dedup_sorted_incl in Hz.
    assert (Hab : a <= b) by (now inversion Ha).
    assert (Hbz : b <= z).
    { destruct Hz as [<-|Hz]; [lra|].
      inversion Hl as [|? ? _ Hb]; subst.
      rewrite Forall_forall in Hb. now apply Hb. }
    destruct (Qlt_le_dec a b) as [Hlt|Hge]; [lra|].
    exfalso. apply E. lra.
Qed.

(** The edges handed to [pd.cut] are strictly increasing. *)
Lemma np_unique_strict l : StronglySorted Qlt (np_unique l).
Proof. apply dedup_sorted_strict, sort_sorted. Qed.

Lemma np_unique_nonempty l : l <> [] -> np_unique l <> [].
Proof.
  intros Hl. destruct l as [|x l]; [contradiction|].
  destruct (dedup_sorted_covers x (sort (x :: l))) as (y & Hy & _).
  - apply sort_In. now left.
  - unfold np_unique. intros E. rewrite E in Hy. exact Hy.
Qed.

Lemma make_labels_length qs : length (make_labels qs) = (length qs - 1)%nat.
Proof. unfold make_labels. now rewrite length_map, length_seq. Qed.

Lemma is_monotonic_strict qs :
  StronglySorted Qlt qs -> is_monotonic_increasing (map Fin qs) = true.
Proof.
  induction 1 as [|a l Hl IH Ha]; [reflexivity|].
  destruct l as [|b l']; [reflexivity|].
  change (negb (edge_ltb (Fin b) (Fin a))
          && is_monotonic_increasing (map Fin (b :: l')) = true).
  rewrite IH, andb_true_r. simpl.
  assert (a < b) by (now inversion Ha).
  q_cases; simpl; [reflexivity|exfalso; lra].
Qed.

Lemma unique_edges_strict seen qs :
  StronglySorted Qlt qs ->
  (forall s x, In s seen -> In x qs -> s < x) ->
  unique_edges (map Fin seen) (map Fin qs) = map Fin qs.
Proof.
  intros Hs. revert seen. induction Hs as [|a l Hl IH Ha]; intros seen Hseen;
    [reflexivity|].
  simpl.
  assert (E : existsb (edge_eqb (Fin a)) (map Fin seen) = false).
  { destruct (existsb _ _) eqn:Ex; [|reflexivity].
    apply existsb_exists in Ex. destruct Ex as (b & Hb & Hab).
    apply in_map_iff in Hb. destruct Hb as (s & <- & Hsin). simpl in Hab.
    apply Qeq_bool_iff in Hab.
    pose proof (Hseen s a Hsin (or_introl eq_refl)). exfalso. lra. }
  rewrite E. f_equal. apply (IH (a :: seen)).
  intros s x [<-|Hsin] Hx.
  - rewrite Forall_forall in Ha. now apply Ha.
  - apply Hseen; [exact Hsin|now right].
Qed.

(** On strictly increasing edges with one label per gap, the only check
    of [pd.cut] that can fail is the one on duplicate labels. *)
Lemma cut_strict x qs labels :
  StronglySorted Qlt qs -> qs <> [] ->
  length labels = (length qs - 1)%nat ->
  cut x (map Fin qs) labels true true =
    if has_duplicates labels then
      inl labels_error
    else inr (map (cut_cell (map Fin qs) labels true (Fin (hd 0 qs))) x).
Proof.
  intros Hs Hne Hlen. unfold cut, raise, ret.
  rewrite (is_monotonic_strict _ Hs). simpl negb. cbv iota.
  change (@nil edge) with (map Fin []).
  rewrite (unique_edges_strict [] qs Hs) by (intros s y []).
  rewrite Nat.ltb_irrefl. simpl andb. cbv iota.
  destruct qs as [|a qs']; [contradiction|].
  simpl map at 1. cbv iota.
  destruct (has_duplicates labels); [reflexivity|].
  rewrite length_map, Hlen, Nat.eqb_refl. reflexivity.
Qed.

Lemma quantile_nonempty col : quantile col quantile_points <> [].
Proof. discriminate. Qed.

(** The two outcomes of the valuation banding. *)
Lemma rango_avaluo_2024_of_cases col :
  rango_avaluo_2024_of col =
    if Nat.ltb 0 (notna_sum col) then
      let qs := np_unique (quantile col quantile_points) in
      if has_duplicates (make_labels qs) then
        inl labels_error
      else inr (map (cut_cell (map Fin qs) (make_labels qs) true (Fin (hd 0 qs))) col)
    else inr (map (fun _ => Some "SIN AVALUO") col).
Proof.
  unfold rango_avaluo_2024_of. destruct (Nat.ltb 0 (notna_sum col)); [|reflexivity].
  apply cut_strict.
  - apply np_unique_strict.
  - apply np_unique_nonempty, quantile_nonempty.
  - apply make_labels_length.
Qed.

(** ** What the loader returns, case by case *)

Lemma load_data_cases fs path df :
  read_excel fs path "MATRIZ" = inr df ->
  load_data fs path =
    let has_dif := in_columns "DIFERENCIA EN EL VALOR" df in
    if Nat.ltb 0 (notna_sum (kept_avaluo df)) then
      if has_duplicates (valuation_labels df) then inl labels_error
      else
        inr (map (fun r =>
                    derive has_dif
                      (r, (cut_cell (map Fin (valuation_edges df))
                             (valuation_labels df) true
                             (Fin (hd 0 (valuation_edges df))) (avaluo2024 r),
                           area_band (area_const r))))
                 (exclude_NO df))
    else
      inr (map (fun r => derive has_dif
                           (r, (Some "SIN AVALUO", area_band (area_const r))))
               (exclude_NO df)).
Proof.
  intros Hread. unfold load_data, bind. rewrite Hread.
  rewrite rango_avaluo_2024_of_cases, rango_area_const_of_eq.
  fold (kept_avaluo df). cbv zeta. fold (valuation_edges df).
  fold (valuation_labels df).
  destruct (Nat.ltb 0 (notna_sum (kept_avaluo df))).
  - destruct (has_duplicates (valuation_labels df)); [reflexivity|].
    unfold ret, kept_avaluo. f_equal.
    rewrite !map_map, combine_map_same, combine_map_r, map_map. reflexivity.
  - unfold ret, kept_avaluo. f_equal.
    rewrite !map_map, combine_map_same, combine_map_r, map_map. reflexivity.
Qed.

Lemma notna_sum_all_missing (col : list (option Q)) :
  (forall c, In c col -> c = None) -> notna_sum col = 0%nat.
Proof.
  unfold notna_sum. intros H. rewrite filter_none; [reflexivity|].
  intros c Hc. now rewrite (H c Hc).
Qed.

(** When no kept row has a valuation (an empty table included) the load
    succeeds and every row is in the band SIN AVALUO. *)
Theorem sin_avaluo_fallback fs path df :
  read_excel fs path "MATRIZ" = inr df ->
  (forall r, In r (exclude_NO df) -> avaluo2024 r = None) ->
  exists data,
    load_data fs path = inr data /\
    map source data = exclude_NO df /\
    forall d, In d data -> rango_avaluo_2024 d = Some "SIN AVALUO".
Proof.
  intros Hread Hnone. rewrite (load_data_cases _ _ _ Hread). cbv zeta.
  rewrite notna_sum_all_missing.
  - simpl. eexists. split; [reflexivity|]. split.
    + rewrite map_map. simpl. apply map_id.
    + intros d Hd. apply in_map_iff in Hd. now destruct Hd as (r & <- & _).
  - intros c Hc. apply in_map_iff in Hc. destruct Hc as (r & <- & Hr). now apply Hnone.
Qed.

(** The sheet without a NO column: every row is kept, in order. *)
Theorem no_NO_column_keeps_all fs path df data :
  read_excel fs path "MATRIZ" = inr df ->
  load_data fs path = inr data ->
  in_columns "NO" df = false ->
  map source data = rows df.
Proof.
  intros Hread Hload Hcol.
  rewrite (load_data_sources _ _ _ _ Hread Hload).
  unfold exclude_NO. now rewrite Hcol.
Qed.

(** ** Every valued row gets a band *)





Lemma dropna_In {A : Type} (a : A) col : In a (dropna col) <-> In (Some a) col.
Proof.
  induction col as [|c col IH]; simpl; [tauto|].
  destruct c as [b|]; simpl; rewrite IH; intuition congruence.
Qed.





Section Edges.

Variable col : list (option Q).

Let s : list Q := sort (dropna col).
Let qs : list Q := np_unique (quantile col quantile_points).





End Edges.

(** * Further properties of the filter *)

Lemma filter_all {A : Type} (p : A -> bool) (l : list A) :
  (forall a, In a l -> p a = true) -> filter p l = l.
Proof.
  induction l as [|a l IH]; simpl; intros H; [reflexivity|].
  rewrite (H a (or_introl eq_refl)). f_equal. apply IH. intros b Hb. apply H. now right.
Qed.

Lemma filter_drops_missing_aux data zona_sel estrato_sel dest_sel aval_rango area_rango d :
  In d (df_filt data zona_sel estrato_sel dest_sel aval_rango area_rango) ->
  DESTINACION (source d) <> None.
Proof.
  rewrite df_filt_conj, filter_In, !andb_true_iff.
  intros (_ & _ & _ & Hd & _). intros E. rewrite E in Hd. discriminate.
Qed.

(** A row with a missing destination, valuation or area is in no filtered
    view, whatever is selected. *)
Theorem filter_drops_missing data zona_sel estrato_sel dest_sel aval_rango area_rango d :
  In d (df_filt data zona_sel estrato_sel dest_sel aval_rango area_rango) ->
  DESTINACION (source d) <> None /\
  avaluo2024 (source d) <> None /\
  area_const (source d) <> None.
Proof.
  rewrite df_filt_conj, filter_In, !andb_true_iff.
  intros (_ & _ & _ & Hd & (Hav & _) & (Har & _)).
  repeat split; intros E; rewrite E in *; discriminate.
Qed.

Lemma filter_drops_missing_witness :
  In (sample_at 0)
     (df_filt sample_data all_zonas all_estratos all_destinaciones
        (100, 300)%Z area_0_200) /\
  DESTINACION (source (sample_at 0)) <> None /\
  avaluo2024 (source (sample_at 0)) <> None /\
  area_const (source (sample_at 0)) <> None.
Proof.
  assert (H : In (sample_at 0)
                (df_filt sample_data all_zonas all_estratos all_destinaciones
                   (100, 300)%Z area_0_200)) by (left; reflexivity).
  split; [exact H|].
  exact (filter_drops_missing _ _ _ _ _ _ _ H).
Defined.

(** Filtering a filtered view again with the same criteria changes
    nothing, and two sets of criteria can be applied in either order. *)
Theorem filter_idempotent_commutes data zs es ds av ar zs' es' ds' av' ar' :
  df_filt (df_filt data zs es ds av ar) zs es ds av ar
    = df_filt data zs es ds av ar /\
  df_filt (df_filt data zs es ds av ar) zs' es' ds' av' ar'
    = df_filt (df_filt data zs' es' ds' av' ar') zs es ds av ar.
Proof.
  rewrite !df_filt_conj, !filter_filter. split.
  - apply filter_ext. intros d. now rewrite andb_diag.
  - apply filter_ext. intros d. apply andb_comm.
Qed.

(** * The sidebar *)

Lemma insert_by_perm {A : Type} (leb : A -> A -> bool) x l :
  Permutation (insert_by leb x l) (x :: l).
Proof.
  induction l as [|y l IH]; simpl; [reflexivity|].
  destruct (leb x y); [reflexivity|].
  rewrite IH. apply perm_swap.
Qed.

Lemma sorted_by_perm {A : Type} (leb : A -> A -> bool) l :
  Permutation (sorted_by leb l) l.
Proof.
  induction l as [|x l IH]; simpl; [reflexivity|].
  rewrite insert_by_perm. now constructor.
Qed.

Section Unique.

Context {A : Type} (eqb : A -> A -> bool).
Hypothesis eqb_spec : forall x y, eqb x y = true <-> x = y.

Lemma unique_by_In x l : In x (unique_by eqb l) <-> In x l.
Proof.
  induction l as [|a l IH]; simpl; [tauto|].
  rewrite filter_In, IH, negb_true_iff. split.
  - intros [->|[H _]]; auto.
  - intros [->|H]; [now left|].
    destruct (eqb x a) eqn:E; [left; symmetry; now apply eqb_spec|auto].
Qed.

Lemma unique_by_NoDup l : NoDup (unique_by eqb l).
Proof.
  induction l as [|a l IH]; simpl; constructor.
  - rewrite filter_In, negb_true_iff. intros [_ H].
    assert (eqb a a = true) by (now apply eqb_spec). congruence.
  - now apply NoDup_filter.
Qed.

(** In a list without repetition exactly one entry equals a member. *)
Lemma count_in_NoDup x l :
  NoDup l -> length (filter (eqb x) l) = if existsb (eqb x) l then 1%nat else 0%nat.
Proof.
  induction 1 as [|a l Ha Hl IH]; simpl; [reflexivity|].
  destruct (eqb x a) eqn:E; simpl.
  - apply eqb_spec in E. subst a. rewrite filter_none; [reflexivity|].
    intros b Hb. destruct (eqb x b) eqn:Eb; [|reflexivity].
    apply eqb_spec in Eb. subst b. contradiction.
  - exact IH.
Qed.

End Unique.

Lemma pair_eqb_spec a b : pair_eqb a b = true <-> a = b.
Proof.
  unfold pair_eqb. destruct a as [a1 a2], b as [b1 b2]. simpl.
  rewrite andb_true_iff, !String.eqb_eq. split; [intros [-> ->]|intros [= -> ->]]; auto.
Qed.

Lemma sorted_unique_In s col : In s (sorted_unique col) <-> In (Some s) col.
Proof.
  unfold sorted_unique.
  rewrite <- dropna_In, <- (unique_by_In String.eqb String.eqb_eq s (dropna col)).
  split; apply Permutation_in; [|symmetry]; apply sorted_by_perm.
Qed.

Lemma sorted_unique_NoDup col : NoDup (sorted_unique col).
Proof.
  unfold sorted_unique.
  eapply Permutation_NoDup; [symmetry; apply sorted_by_perm|].
  apply unique_by_NoDup, String.eqb_eq.
Qed.

(** Each multiselect offers every value observed in its column exactly
    once; the destinations leave the missing cells out. *)
Theorem sidebar_options data :
  (forall s, In s (zonas data) <-> exists d, In d data /\ zona d = s) /\
  (forall s, In s (estratos data) <-> exists d, In d data /\ estrato_cat d = s) /\
  (forall s, In s (destinaciones data) <->
     exists d, In d data /\ DESTINACION (source d) = Some s) /\
  NoDup (zonas data) /\ NoDup (estratos data) /\ NoDup (destinaciones data).
Proof.
  unfold zonas, estratos, destinaciones.
  repeat split; try apply sorted_unique_NoDup;
    rewrite sorted_unique_In, in_map_iff.
  all: try (intros (d & E & Hd); exists d; split; [exact Hd|congruence]).
  all: intros (d & Hd & E); exists d; split; [congruence|exact Hd].
Qed.

(** ** The default ranges *)

Lemma fold_left_q_min xs x :
  In (fold_left q_min xs x) (x :: xs) /\
  forall y, In y (x :: xs) -> fold_left q_min xs x <= y.
Proof.
  revert x. induction xs as [|a xs IH]; intros x; simpl.
  - split; [now left|]. intros y [<-|[]]. lra.
  - destruct (IH (q_min x a)) as [Hin Hle]. split.
    + destruct Hin as [E|Hin]; [|auto].
      rewrite <- E. unfold q_min. destruct (Qle_bool x a); auto.
    + intros y Hy.
      assert (Hm : q_min x a <= x /\ q_min x a <= a).
      { unfold q_min. destruct (Qle_bool_reflect x a); split; lra. }
      pose proof (Hle (q_min x a) (or_introl eq_refl)).
      destruct Hy as [<-|[<-|Hy]]; [lra|lra|]. apply Hle. now right.
Qed.

Lemma fold_left_q_max xs x :
  In (fold_left q_max xs x) (x :: xs) /\
  forall y, In y (x :: xs) -> y <= fold_left q_max xs x.
Proof.
  revert x. induction xs as [|a xs IH]; intros x; simpl.
  - split; [now left|]. intros y [<-|[]]. lra.
  - destruct (IH (q_max x a)) as [Hin Hle]. split.
    + destruct Hin as [E|Hin]; [|auto].
      rewrite <- E. unfold q_max. destruct (Qle_bool x a); auto.
    + intros y Hy.
      assert (Hm : x <= q_max x a /\ a <= q_max x a).
      { unfold q_max. destruct (Qle_bool_reflect x a); split; lra. }
      pose proof (Hle (q_max x a) (or_introl eq_refl)).
      destruct Hy as [<-|[<-|Hy]]; [lra|lra|]. apply Hle. now right.
Qed.

(** The minimum of a column with a value: one of its values, below all
    of them. *)
Lemma series_min_spec col a :
  In (Some a) col ->
  exists m, series_min col = Some m /\ In (Some m) col /\
            forall y, In (Some y) col -> m <= y.
Proof.
  intros Ha. apply dropna_In in Ha. unfold series_min.
  destruct (dropna col) as [|x xs] eqn:E; [destruct Ha|].
  destruct (fold_left_q_min xs x) as [Hin Hle].
  exists (fold_left q_min xs x). split; [reflexivity|]. split.
  - apply dropna_In. now rewrite E.
  - intros y Hy. apply Hle. rewrite <- E. now apply dropna_In.
Qed.

Lemma series_max_spec col a :
  In (Some a) col ->
  exists m, series_max col = Some m /\ In (Some m) col /\
            forall y, In (Some y) col -> y <= m.
Proof.
  intros Ha. apply dropna_In in Ha. unfold series_max.
  destruct (dropna col) as [|x xs] eqn:E; [destruct Ha|].
  destruct (fold_left_q_max xs x) as [Hin Hle].
  exists (fold_left q_max xs x). split; [reflexivity|]. split.
  - apply dropna_In. now rewrite E.
  - intros y Hy. apply Hle. rewrite <- E. now apply dropna_In.
Qed.

Lemma series_min_all_missing (col : list (option Q)) :
  (forall c, In c col -> c = None) -> series_min col = None.
Proof.
  intros H. unfold series_min.
  destruct (dropna col) as [|x xs] eqn:E; [reflexivity|].
  assert (Hx : In (Some x) col) by (apply dropna_In; rewrite E; now left).
  now specialize (H _ Hx).
Qed.

Lemma whole_astype_int q : whole (Some q) -> inject_Z (astype_int q) == q.
Proof.
  intros (q' & z & [= <-] & Hz). rewrite (astype_int_inject_Z _ _ Hz). now symmetry.
Qed.

(** The integer bounds of a column of whole numbers enclose all of it. *)
Lemma whole_bounds col a :
  (forall c, In c col -> whole c) -> In (Some a) col ->
  exists lo hi,
    python_int (series_min col) = inr lo /\
    python_int (series_max col) = inr hi /\
    forall y, In (Some y) col -> inject_Z lo <= y /\ y <= inject_Z hi.
Proof.
  intros Hw Ha.
  destruct (series_min_spec col a Ha) as (m & -> & Hm & Hmin).
  destruct (series_max_spec col a Ha) as (M & -> & HM & Hmax).
  exists (astype_int m), (astype_int M). repeat split.
  - rewrite (whole_astype_int m (Hw _ Hm)). now apply Hmin.
  - rewrite (whole_astype_int M (Hw _ HM)). now apply Hmax.
Qed.

(** When every row has a destination and whole-number valuation and area,
    the view shown before any widget is touched, if the sliders can be
    built at all, is the whole table. *)
Theorem default_view_is_whole_table data view :
  df_filt_default data = inr view ->
  (forall d, In d data ->
     DESTINACION (source d) <> None /\
     whole (avaluo2024 (source d)) /\ whole (area_const (source d))) ->
  view = data.
Proof.
  intros Hview Hrows.
  destruct data as [|d0 data']; [discriminate Hview|]. set (data := d0 :: data') in *.
  unfold df_filt_default, aval_rango_default, area_rango_default, bind in Hview.
  set (av := map (fun r => avaluo2024 (source r)) data) in *.
  set (ar := map (fun r => area_const (source r)) data) in *.
  assert (H0 : In d0 data) by (now left).
  destruct (Hrows d0 H0) as (_ & (a0 & z0 & Ha0 & _) & (b0 & y0 & Hb0 & _)).
  destruct (whole_bounds av a0) as (lo & hi & Elo & Ehi & Hav).
  { intros c Hc. apply in_map_iff in Hc. destruct Hc as (d & <- & Hd).
    now apply Hrows. }
  { apply in_map_iff. exists d0. auto. }
  destruct (whole_bounds ar b0) as (lo' & hi' & Elo' & Ehi' & Har).
  { intros c Hc. apply in_map_iff in Hc. destruct Hc as (d & <- & Hd).
    now apply Hrows. }
  { apply in_map_iff. exists d0. auto. }
  rewrite Elo, Ehi in Hview. unfold slider in Hview.
  destruct (Z.ltb lo hi); [|discriminate Hview].
  rewrite Elo', Ehi' in Hview.
  destruct (Qltb (inject_Z lo') (inject_Z hi')); [|discriminate Hview].
  unfold ret in Hview. injection Hview as <-.
  rewrite df_filt_conj. apply filter_all.
  intros d Hd. destruct (Hrows d Hd) as (Hdest & (a & z & Ha & _) & (b & y & Hb & _)).
  rewrite !andb_true_iff. simpl fst. simpl snd. repeat split.
  - apply isin_Some, sorted_unique_In, in_map_iff. eauto.
  - apply isin_Some, sorted_unique_In, in_map_iff. eauto.
  - destruct (DESTINACION (source d)) as [s|] eqn:E; [|contradiction].
    apply isin_Some, sorted_unique_In, in_map_iff. eauto.
  - rewrite Ha. simpl. apply Qle_bool_iff.
    apply (Hav a). apply in_map_iff. exists d. auto.
  - rewrite Ha. simpl. apply Qle_bool_iff.
    apply (Hav a). apply in_map_iff. exists d. auto.
  - rewrite Hb. simpl. apply Qle_bool_iff.
    apply (Har b). apply in_map_iff. exists d. auto.
  - rewrite Hb. simpl. apply Qle_bool_iff.
    apply (Har b). apply in_map_iff. exists d. auto.
Qed.

(** When no row has a valuation (the empty table included), building the
    valuation slider raises: [int] meets the NaN minimum. When no row has
    an area, no default view is produced either. *)
Theorem default_view_needs_values data :
  ((forall d, In d data -> avaluo2024 (source d) = None) ->
   df_filt_default data = inl (ValueError "cannot convert float NaN to integer")) /\
  ((forall d, In d data -> area_const (source d) = None) ->
   forall view, df_filt_default data <> inr view).
Proof.
  unfold df_filt_default, aval_rango_default, area_rango_default, bind. split.
  - intros H. rewrite series_min_all_missing; [reflexivity|].
    intros c Hc. apply in_map_iff in Hc. destruct Hc as (d & <- & Hd). now apply H.
  - intros H view.
    rewrite (series_min_all_missing (map (fun r => area_const (source r)) data)).
    + simpl python_int at 3. unfold raise.
      destruct (python_int (series_min _)); [discriminate|].
      destruct (python_int (series_max _)); [discriminate|].
      destruct (slider Z.ltb _ _ _); discriminate.
    + intros c Hc. apply in_map_iff in Hc. destruct Hc as (d & <- & Hd).
      now apply H.
Qed.

Lemma astype_int_floor q : 0 <= q -> astype_int q = Qfloor q.
Proof.
  intros H. unfold astype_int, Qfloor. destruct q as [n d].
  apply Z.quot_div_nonneg; [|reflexivity].
  unfold Qle in H. simpl in *. lia.
Qed.

(** The upper default of the valuation slider is the largest valuation
    cut to an integer. When that valuation is positive and not whole, the
    rows that carry it are missing from the default view. *)
Theorem default_view_cuts_fractional_max data view M :
  df_filt_default data = inr view ->
  series_max (map (fun r => avaluo2024 (source r)) data) = Some M ->
  0 < M -> (forall z, ~ M == inject_Z z) ->
  forall d a, In d view -> avaluo2024 (source d) = Some a -> a < M.
Proof.
  unfold df_filt_default, aval_rango_default, area_rango_default, bind.
  intros Hview HM Hpos Hfrac d a Hd Ha. rewrite HM in Hview.
  destruct (python_int (series_min (map (fun r => avaluo2024 (source r)) data)))
    as [e|lo]; [discriminate|].
  simpl python_int in Hview. unfold ret, slider in Hview.
  destruct (Z.ltb lo (astype_int M)); [|discriminate].
  destruct (python_int (series_min (map (fun r => area_const (source r)) data)))
    as [e|lo']; [discriminate|].
  destruct (python_int (series_max (map (fun r => area_const (source r)) data)))
    as [e|hi']; [discriminate|].
  destruct (Qltb (inject_Z lo') (inject_Z hi')); [|discriminate].
  injection Hview as <-.
  rewrite df_filt_conj in Hd. apply filter_In in Hd. destruct Hd as [_ Hd].
  rewrite !andb_true_iff in Hd. destruct Hd as (_ & _ & _ & (_ & Hhi) & _).
  simpl snd in Hhi. rewrite Ha in Hhi. simpl in Hhi. apply Qle_bool_iff in Hhi.
  rewrite astype_int_floor in Hhi by lra.
  pose proof (Qfloor_le M) as Hfl.
  destruct (Qlt_le_dec (inject_Z (Qfloor M)) M) as [Hlt|Hge]; [lra|].
  exfalso. apply (Hfrac (Qfloor M)). lra.
Qed.

(** * Aggregations *)

Lemma sum_Q_app l1 l2 : sum_Q (l1 ++ l2) == sum_Q l1 + sum_Q l2.
Proof.
  unfold sum_Q. induction l1 as [|x l1 IH]; simpl; [ring|]. rewrite IH. ring.
Qed.

Section Partition.

(** Rows split into groups by a family of tests [P k], one per key, such
    that each counted row passes the test of exactly one key. *)
Context {K R : Type} (P : K -> R -> bool) (q : R -> bool).

Lemma group_lengths_cons keys r rows :
  list_sum (map (fun k => length (filter (P k) (r :: rows))) keys)
  = (matches P keys r + list_sum (map (fun k => length (filter (P k) rows)) keys))%nat.
Proof.
  unfold matches. induction keys as [|k ks IH]; [reflexivity|].
  simpl in *. rewrite IH. destruct (P k r); simpl; lia.
Qed.

Lemma group_lengths_nil keys :
  list_sum (map (fun k => length (filter (P k) (@nil R))) keys) = 0%nat.
Proof. induction keys as [|k ks IH]; [reflexivity|exact IH]. Qed.

(** The group sizes add up to the number of counted rows. *)
Lemma group_lengths_total keys rows :
  (forall r, In r rows -> matches P keys r = if q r then 1%nat else 0%nat) ->
  list_sum (map (fun k => length (filter (P k) rows)) keys)
  = length (filter q rows).
Proof.
  induction rows as [|r rows IH]; intros H.
  - apply group_lengths_nil.
  - rewrite group_lengths_cons, IH by (intros r' Hr'; apply H; now right).
    rewrite (H r (or_introl eq_refl)). simpl. destruct (q r); simpl; lia.
Qed.

Variable f : R -> option Q.

Lemma series_sum_cons r rows :
  series_sum (map f (r :: rows)) == cell_value f r + series_sum (map f rows).
Proof.
  unfold series_sum, cell_value. simpl. destruct (f r); simpl; ring.
Qed.

Lemma group_sums_cons keys r rows :
  sum_Q (map (fun k => series_sum (map f (filter (P k) (r :: rows)))) keys)
  == inject_Z (Z.of_nat (matches P keys r)) * cell_value f r
     + sum_Q (map (fun k => series_sum (map f (filter (P k) rows))) keys).
Proof.
  unfold matches, sum_Q. induction keys as [|k ks IH].
  - simpl. ring.
  - simpl in *. rewrite IH. destruct (P k r).
    + change (series_sum (map f (r :: filter (P k) rows))
              + (inject_Z (Z.of_nat (length (filter (fun k0 => P k0 r) ks)))
                 * cell_value f r
                 + fold_right Qplus 0
                     (map (fun k0 => series_sum (map f (filter (P k0) rows))) ks))
              == inject_Z (Z.of_nat (S (length (filter (fun k0 => P k0 r) ks))))
                 * cell_value f r
                 + (series_sum (map f (filter (P k) rows))
                    + fold_right Qplus 0
                        (map (fun k0 => series_sum (map f (filter (P k0) rows))) ks))).
      rewrite series_sum_cons, Nat2Z.inj_succ. unfold Z.succ.
      rewrite inject_Z_plus. ring.
    + ring.
Qed.

Lemma group_sums_nil keys :
  sum_Q (map (fun k => series_sum (map f (filter (P k) (@nil R)))) keys) == 0.
Proof.
  induction keys as [|k ks IH]; [reflexivity|].
  rewrite map_cons. change (sum_Q (?a :: ?l)) with (a + sum_Q l).
  rewrite IH. unfold series_sum. simpl. ring.
Qed.

(** The group sums add up to the sum over the counted rows. *)
Lemma group_sums_total keys rows :
  (forall r, In r rows -> matches P keys r = if q r then 1%nat else 0%nat) ->
  sum_Q (map (fun k => series_sum (map f (filter (P k) rows))) keys)
  == series_sum (map f (filter q rows)).
Proof.
  induction rows as [|r rows IH]; intros H.
  - rewrite group_sums_nil. reflexivity.
  - rewrite group_sums_cons, IH by (intros r' Hr'; apply H; now right).
    rewrite (H r (or_introl eq_refl)). cbn [filter]. destruct (q r).
    + rewrite series_sum_cons. simpl. ring.
    + simpl. ring.
Qed.

End Partition.

Lemma existsb_eqb_In x l : existsb (String.eqb x) l = true <-> In x l.
Proof.
  rewrite existsb_exists. split.
  - intros (y & Hy & E). apply String.eqb_eq in E. now subst.
  - intros H. exists x. split; [exact H|apply String.eqb_refl].
Qed.

(** Grouping by a text column whose values are all among the keys. *)
Lemma string_groups_match (key : DerivedRecord -> string) df r :
  In r df ->
  matches (fun k r => String.eqb (key r) k)
          (sorted_unique (map (fun r => Some (key r)) df)) r = 1%nat.
Proof.
  intros Hr. unfold matches.
  rewrite (count_in_NoDup String.eqb String.eqb_eq) by apply sorted_unique_NoDup.
  assert (E : existsb (String.eqb (key r))
                (sorted_unique (map (fun r => Some (key r)) df)) = true).
  { apply existsb_eqb_In, sorted_unique_In, in_map_iff. eauto. }
  now rewrite E.
Qed.

Lemma recaudo_of_melt wide :
  recaudo_of "VLR_IPU_2025" (melt wide) = map (fun row => fst (snd row)) wide /\
  recaudo_of "IPU LEY 44" (melt wide) = map (fun row => snd (snd row)) wide.
Proof.
  unfold recaudo_of, melt. rewrite !filter_app, !map_app. split.
  - rewrite (filter_all _ (map _ wide)), (filter_none _ (map _ wide)).
    + now rewrite app_nil_r, map_map.
    + intros row Hrow. apply in_map_iff in Hrow. now destruct Hrow as (w & <- & _).
    + intros row Hrow. apply in_map_iff in Hrow. now destruct Hrow as (w & <- & _).
  - rewrite (filter_none _ (map _ wide)), (filter_all _ (map _ wide)).
    + now rewrite map_map.
    + intros row Hrow. apply in_map_iff in Hrow. now destruct Hrow as (w & <- & _).
    + intros row Hrow. apply in_map_iff in Hrow. now destruct Hrow as (w & <- & _).
Qed.

(** The bars of the summary chart add up to the two headline figures: the
    per-zone sums of each scenario total the current and the proposed
    revenue of the filtered table, and their difference is the delta. The
    two hypotheses keep the statement to amounts that float64 adds
    exactly, where the sums of the script are the sums of the model. *)
Theorem recaudo_por_zona_totals df :
  exact_amounts (map (fun r => VLR_IPU_2025 (source r)) df) ->
  exact_amounts (map (fun r => IPU_LEY_44 (source r)) df) ->
  sum_Q (recaudo_of "VLR_IPU_2025" (agg df)) == rec_actual df /\
  sum_Q (recaudo_of "IPU LEY 44" (agg df)) == rec_propuesta df /\
  sum_Q (recaudo_of "IPU LEY 44" (agg df))
    - sum_Q (recaudo_of "VLR_IPU_2025" (agg df)) == delta_recaudo df.
Proof.
  intros _ _.
  assert (Hall : filter (fun _ : DerivedRecord => true) df = df)
    by (apply filter_all; reflexivity).
  assert (H1 : sum_Q (recaudo_of "VLR_IPU_2025" (agg df)) == rec_actual df).
  { unfold agg. rewrite (proj1 (recaudo_of_melt _)).
    unfold recaudo_por_zona, zonas, rec_actual, group_of. rewrite map_map. simpl.
    rewrite (group_sums_total _ (fun _ => true)); [now rewrite Hall|].
    intros r Hr. apply (string_groups_match zona df r Hr). }
  assert (H2 : sum_Q (recaudo_of "IPU LEY 44" (agg df)) == rec_propuesta df).
  { unfold agg. rewrite (proj2 (recaudo_of_melt _)).
    unfold recaudo_por_zona, zonas, rec_propuesta, group_of. rewrite map_map. simpl.
    rewrite (group_sums_total _ (fun _ => true)); [now rewrite Hall|].
    intros r Hr. apply (string_groups_match zona df r Hr). }
  split; [exact H1|]. split; [exact H2|].
  unfold delta_recaudo. now rewrite H1, H2.
Qed.

(** The tariff chart counts every filtered row once: the sizes add up to
    the number of rows, no listed situation is empty, and none is listed
    twice. *)
Theorem dist_tarifa_counts df :
  list_sum (map snd (dist_tarifa df)) = length df /\
  (forall k n, In (k, n) (dist_tarifa df) -> (1 <= n)%nat) /\
  NoDup (map fst (dist_tarifa df)).
Proof.
  unfold dist_tarifa, group_of. rewrite !map_map. simpl. split; [|split].
  - rewrite (group_lengths_total _ (fun _ => true)).
    + f_equal. apply filter_all. reflexivity.
    + intros r Hr. apply (string_groups_match situacion_tarifa df r Hr).
  - intros k n Hin. apply in_map_iff in Hin. destruct Hin as (k' & [= <- <-] & Hk).
    apply sorted_unique_In, in_map_iff in Hk. destruct Hk as (r & [= E] & Hr).
    assert (Hin : In r (filter (fun r0 => String.eqb (situacion_tarifa r0) k') df)).
    { apply filter_In. split; [exact Hr|]. rewrite E. apply String.eqb_refl. }
    destruct (filter _ df); [destruct Hin|simpl; lia].
  - rewrite map_id. apply sorted_unique_NoDup.
Qed.

Lemma pair_groups_match df r :
  In r df ->
  matches (fun k r => match zona_destinacion r with
                      | Some k' => pair_eqb k' k
                      | None => false
                      end)
          (sorted_by pair_leb (unique_by pair_eqb (dropna (map zona_destinacion df)))) r
  = if (match zona_destinacion r with Some _ => true | None => false end)
    then 1%nat else 0%nat.
Proof.
  intros Hr. unfold matches. destruct (zona_destinacion r) as [k|] eqn:E.
  - assert (Hnd : NoDup (sorted_by pair_leb
                    (unique_by pair_eqb (dropna (map zona_destinacion df))))).
    { eapply Permutation_NoDup; [symmetry; apply sorted_by_perm|].
      apply unique_by_NoDup, pair_eqb_spec. }
    pose proof (count_in_NoDup pair_eqb pair_eqb_spec k _ Hnd) as Hc.
    assert (Ex : existsb (pair_eqb k)
                   (sorted_by pair_leb
                      (unique_by pair_eqb (dropna (map zona_destinacion df)))) = true).
    { apply existsb_exists. exists k. split; [|now apply pair_eqb_spec].
      eapply Permutation_in; [symmetry; apply sorted_by_perm|].
      apply (unique_by_In pair_eqb pair_eqb_spec), dropna_In, in_map_iff. eauto. }
    rewrite Ex in Hc. exact Hc.
  - rewrite filter_none; reflexivity.
Qed.

(** In the table by zone and destination the column predios adds up to
    the number of rows that have a destination; computed on a filtered
    view, that is every row of the view. *)
Theorem resumen_tarifas_counts data zona_sel estrato_sel dest_sel aval_rango area_rango df :
  list_sum (map predios (resumen_tarifas df))
    = length (filter (fun r => match DESTINACION (source r) with
                               | Some _ => true
                               | None => false
                               end) df) /\
  list_sum (map predios
              (resumen_tarifas
                 (df_filt data zona_sel estrato_sel dest_sel aval_rango area_rango)))
    = length (df_filt data zona_sel estrato_sel dest_sel aval_rango area_rango).
Proof.
  assert (H : forall t, list_sum (map predios (resumen_tarifas t))
              = length (filter (fun r => match DESTINACION (source r) with
                                         | Some _ => true
                                         | None => false
                                         end) t)).
  { intros t. unfold resumen_tarifas. rewrite map_map. simpl.
    rewrite (group_lengths_total _
               (fun r => match zona_destinacion r with
                         | Some _ => true | None => false end)).
    - f_equal. apply filter_ext. intros r. unfold zona_destinacion.
      now destruct (DESTINACION (source r)).
    - intros r Hr. apply (pair_groups_match t r Hr). }
  split; [apply H|].
  rewrite H. f_equal. apply filter_all. intros d Hd.
  apply filter_drops_missing_aux in Hd. now destruct (DESTINACION (source d)).
Qed.

(** * Printed counts *)

Lemma uint_digits_no_sep d :
  forallb (fun c => negb (is_sep c))
    (list_ascii_of_string (NilEmpty.string_of_uint d)) = true.
Proof. induction d; simpl; auto. Qed.

Lemma count_digits_no_sep n :
  forallb (fun c => negb (is_sep c))
    (list_ascii_of_string (astype_str (Z.of_nat n))) = true.
Proof.
  unfold astype_str. destruct n as [|n]; [reflexivity|].
  rewrite Nat2Z.inj_succ. destruct (Z.succ (Z.of_nat n)) as [|p|p] eqn:E; try lia.
  simpl. unfold NilZero.string_of_uint.
  pose proof (uint_digits_no_sep (Pos.to_uint p)) as H.
  destruct (Pos.to_uint p); exact H.
Qed.

Lemma group_rev_remove k l :
  forallb (fun c => negb (is_sep c)) l = true ->
  filter (fun c => negb (Ascii.eqb c ","%char)) (group_rev k l) = l.
Proof.
  revert k. induction l as [|c l IH]; intros k H; [reflexivity|].
  simpl in H. apply andb_true_iff in H. destruct H as [Hc Hl].
  assert (Hcomma : negb (Ascii.eqb c ","%char) = true).
  { unfold is_sep in Hc. destruct (Ascii.eqb c ","%char); [discriminate|reflexivity]. }
  simpl. destruct (Nat.eqb k 3); simpl; rewrite Hcomma, IH; auto.
Qed.

Lemma group_rev_no_dot k l :
  forallb (fun c => negb (is_sep c)) l = true ->
  forallb (fun c => negb (Ascii.eqb c "."%char)) (group_rev k l) = true.
Proof.
  revert k. induction l as [|c l IH]; intros k H; [reflexivity|].
  simpl in H. apply andb_true_iff in H. destruct H as [Hc Hl].
  assert (Hdot : negb (Ascii.eqb c "."%char) = true).
  { unfold is_sep in Hc. destruct (Ascii.eqb c "."%char);
      [now rewrite orb_true_r in Hc|reflexivity]. }
  simpl. destruct (Nat.eqb k 3); simpl; rewrite Hdot, IH; auto.
Qed.

Lemma remove_char_list c s :
  list_ascii_of_string (remove_char c s)
  = filter (fun a => negb (Ascii.eqb a c)) (list_ascii_of_string s).
Proof.
  induction s as [|a s IH]; simpl; [reflexivity|].
  destruct (Ascii.eqb a c); simpl; now rewrite IH.
Qed.

Lemma replace_comma_list s :
  list_ascii_of_string (replace_comma s)
  = map (fun c => if Ascii.eqb c ","%char then "."%char else c)
        (list_ascii_of_string s).
Proof. induction s as [|a s IH]; simpl; [reflexivity|]. now rewrite IH. Qed.

(** After the commas have become dots, deleting the dots is deleting the
    commas, provided there was no dot before. *)
Lemma remove_dots_after_replace l :
  forallb (fun c => negb (Ascii.eqb c "."%char)) l = true ->
  filter (fun a => negb (Ascii.eqb a "."%char))
    (map (fun c => if Ascii.eqb c ","%char then "."%char else c) l)
  = filter (fun c => negb (Ascii.eqb c ","%char)) l.
Proof.
  induction l as [|c l IH]; intros H; [reflexivity|].
  simpl in H. apply andb_true_iff in H. destruct H as [Hc Hl].
  simpl. destruct (Ascii.eqb c ","%char) eqn:E; simpl.
  - now apply IH.
  - rewrite Hc. f_equal. now apply IH.
Qed.

Lemma replace_comma_app s t :
  replace_comma (s ++ t) = replace_comma s ++ replace_comma t.
Proof. induction s as [|a s IH]; simpl; [reflexivity|]. now rewrite IH. Qed.

(** The printed count only adds separators: deleting the dots gives back
    the decimal digits of the count. The line under the filters is the
    fixed text around that printed count. *)
Theorem format_count_round_trip n df :
  remove_char "."%char (format_count n) = astype_str (Z.of_nat n) /\
  predios_filtrados df
    = "Predios filtrados: **" ++ format_count (length df) ++ "**".
Proof.
  split.
  - rewrite <- (string_of_list_ascii_of_string (remove_char _ _)),
            <- (string_of_list_ascii_of_string (astype_str _)).
    f_equal. unfold format_count, group_thousands.
    rewrite remove_char_list, replace_comma_list,
            list_ascii_of_string_of_list_ascii.
    pose proof (count_digits_no_sep n) as Hd.
    set (digits := list_ascii_of_string (astype_str (Z.of_nat n))) in *.
    assert (Hrev : forallb (fun c => negb (is_sep c)) (rev digits) = true).
    { rewrite forallb_forall in *. intros c Hc. apply Hd. now apply in_rev. }
    rewrite remove_dots_after_replace.
    + rewrite filter_rev, (group_rev_remove 0 _ Hrev). apply rev_involutive.
    + pose proof (group_rev_no_dot 0 _ Hrev) as Hnd.
      rewrite forallb_forall in *. intros c Hc. apply Hnd. now apply in_rev.
  - unfold predios_filtrados, format_count.
    now rewrite !replace_comma_app.
Qed.

(** * Instances on the sample sheets *)

Lemma situacion_ipu_sign_witness :
  read_excel (one_sheet dif_df) default_path "MATRIZ" = inr dif_df /\
  load_data (one_sheet dif_df) default_path = inr dif_data /\
  In (nth 0 dif_data blank_record) dif_data /\
  in_columns "DIFERENCIA EN EL VALOR" dif_df = true /\
  DIFERENCIA_EN_EL_VALOR (source (nth 0 dif_data blank_record)) = Some 200 /\
  (situacion_ipu (nth 0 dif_data blank_record) = "Sube IPU" <-> 0 < 200).
Proof.
  assert (Hread : read_excel (one_sheet dif_df) default_path "MATRIZ" = inr dif_df)
    by reflexivity.
  assert (Hload : load_data (one_sheet dif_df) default_path = inr dif_data)
    by (vm_compute; reflexivity).
  assert (Hin : In (nth 0 dif_data blank_record) dif_data) by (left; reflexivity).
  split; [exact Hread|]. split; [exact Hload|]. split; [exact Hin|].
  split; [reflexivity|]. split; [reflexivity|].
  exact (proj2 (proj2 (situacion_ipu_sign _ _ _ _ _ 200 Hread Hload Hin
                         eq_refl eq_refl))).
Defined.

Lemma situacion_ipu_sin_dato_witness :
  read_excel sample_fs default_path "MATRIZ" = inr sample_df /\
  load_data sample_fs default_path = inr sample_data /\
  In (sample_at 0) sample_data /\
  in_columns "DIFERENCIA EN EL VALOR" sample_df = false /\
  situacion_ipu (sample_at 0) = "Sin dato".
Proof.
  assert (Hread : read_excel sample_fs default_path "MATRIZ" = inr sample_df)
    by reflexivity.
  assert (Hload : load_data sample_fs default_path = inr sample_data)
    by (vm_compute; reflexivity).
  assert (Hin : In (sample_at 0) sample_data) by (left; reflexivity).
  split; [exact Hread|]. split; [exact Hload|]. split; [exact Hin|].
  split; [reflexivity|].
  exact (situacion_ipu_sin_dato _ _ _ _ _ Hread Hload Hin (or_introl eq_refl)).
Defined.

Lemma missing_tariff_sin_dato_witness :
  load_data sample_fs default_path = inr sample_data /\
  In (sample_at 3) sample_data /\
  TARIFA_PROPUESTA (source (sample_at 3)) = None /\
  cambio_tarifa (sample_at 3) = None /\
  situacion_tarifa (sample_at 3) = "Sin dato".
Proof.
  assert (Hload : load_data sample_fs default_path = inr sample_data)
    by (vm_compute; reflexivity).
  assert (Hin : In (sample_at 3) sample_data) by (do 3 right; left; reflexivity).
  split; [exact Hload|]. split; [exact Hin|]. split; [reflexivity|].
  exact (missing_tariff_sin_dato _ _ _ _ Hload Hin (or_intror eq_refl)).
Defined.

Lemma estrato_sin_estrato_iff_witness :
  load_data sample_fs default_path = inr sample_data /\
  In (sample_at 2) sample_data /\
  ESTRATO (source (sample_at 2)) = Some 0 /\
  estrato_cat (sample_at 2) = "SIN ESTRATO".
Proof.
  assert (Hload : load_data sample_fs default_path = inr sample_data)
    by (vm_compute; reflexivity).
  assert (Hin : In (sample_at 2) sample_data) by (do 2 right; left; reflexivity).
  split; [exact Hload|]. split; [exact Hin|]. split; [reflexivity|].
  apply (proj2 (estrato_sin_estrato_iff _ _ _ _ Hload Hin)).
  right. exists 0. split; [reflexivity|]. split; unfold Qlt; simpl; lia.
Defined.

Lemma sin_avaluo_fallback_witness :
  read_excel (one_sheet unvalued_df) default_path "MATRIZ" = inr unvalued_df /\
  exists data,
    load_data (one_sheet unvalued_df) default_path = inr data /\
    map source data = exclude_NO unvalued_df /\
    forall d, In d data -> rango_avaluo_2024 d = Some "SIN AVALUO".
Proof.
  assert (Hread : read_excel (one_sheet unvalued_df) default_path "MATRIZ"
                  = inr unvalued_df) by reflexivity.
  split; [exact Hread|].
  apply (sin_avaluo_fallback _ _ _ Hread).
  intros r Hr. simpl in Hr. destruct Hr as [<-|[<-|[]]]; reflexivity.
Defined.

Lemma no_NO_column_keeps_all_witness :
  read_excel tied_fs default_path "MATRIZ" = inr tied_df /\
  in_columns "NO" tied_df = false /\
  exists data, load_data tied_fs default_path = inr data /\
               map source data = rows tied_df.
Proof.
  assert (Hread : read_excel tied_fs default_path "MATRIZ" = inr tied_df)
    by reflexivity.
  split; [exact Hread|]. split; [reflexivity|].
  destruct (load_data tied_fs default_path) as [e|data] eqn:Hload;
    [vm_compute in Hload; discriminate Hload|].
  exists data. split; [reflexivity|].
  exact (no_NO_column_keeps_all _ _ _ _ Hread Hload eq_refl).
Defined.

Lemma default_view_is_whole_table_witness :
  df_filt_default sample_data = inr sample_view /\ sample_view = sample_data.
Proof.
  assert (Hview : df_filt_default sample_data = inr sample_view)
    by (vm_compute; reflexivity).
  split; [exact Hview|].
  apply (default_view_is_whole_table sample_data sample_view Hview).
  intros d Hd. simpl in Hd.
  destruct Hd as [<-|[<-|[<-|[<-|[]]]]]; simpl;
    (split; [discriminate|]); split;
    match goal with
    | |- whole (Some ?q) => exists q, (Qnum q); split; reflexivity
    end.
Defined.

Lemma default_view_needs_values_witness :
  (forall d, In d unvalued_data -> avaluo2024 (source d) = None) /\
  df_filt_default unvalued_data
    = inl (ValueError "cannot convert float NaN to integer").
Proof.
  assert (H : forall d, In d unvalued_data -> avaluo2024 (source d) = None).
  { intros d Hd. simpl in Hd. destruct Hd as [<-|[<-|[]]]; reflexivity. }
  split; [exact H|].
  exact (proj1 (default_view_needs_values unvalued_data) H).
Defined.

Lemma default_view_cuts_fractional_max_witness :
  df_filt_default fractional_data = inr fractional_view /\
  series_max (map (fun r => avaluo2024 (source r)) fractional_data)
    = Some (601 # 2) /\
  0 < 601 # 2 /\
  In (nth 0 fractional_view blank_record) fractional_view /\
  avaluo2024 (source (nth 0 fractional_view blank_record)) = Some 100 /\
  100 < 601 # 2.
Proof.
  assert (Hview : df_filt_default fractional_data = inr fractional_view)
    by (vm_compute; reflexivity).
  assert (HM : series_max (map (fun r => avaluo2024 (source r)) fractional_data)
               = Some (601 # 2)) by (vm_compute; reflexivity).
  assert (Hpos : 0 < 601 # 2) by (unfold Qlt; simpl; lia).
  assert (Hfrac : forall z, ~ (601 # 2) == inject_Z z).
  { intros z. unfold Qeq. simpl. lia. }
  assert (Hin : In (nth 0 fractional_view blank_record) fractional_view)
    by (left; reflexivity).
  split; [exact Hview|]. split; [exact HM|]. split; [exact Hpos|].
  split; [exact Hin|]. split; [reflexivity|].
  exact (default_view_cuts_fractional_max _ _ _ Hview HM Hpos Hfrac _ 100 Hin
           eq_refl).
Defined.

Lemma dist_tarifa_counts_witness :
  In ("Baja tarifa", 1%nat) (dist_tarifa sample_data) /\ (1 <= 1)%nat.
Proof.
  assert (Hin : In ("Baja tarifa", 1%nat) (dist_tarifa sample_data))
    by (left; reflexivity).
  split; [exact Hin|].
  exact (proj1 (proj2 (dist_tarifa_counts sample_data)) _ _ Hin).
Defined.

(** * The valuation bands and their edges *)

Lemma dedup_sorted_length l : (length (dedup_sorted l) <= length l)%nat.
Proof.
  induction l as [|a l IH]; [simpl; lia|].
  destruct l as [|b l']; [simpl; lia|].
  rewrite dedup_sorted_cons2. destruct (Qeq_bool a b); simpl in *; lia.
Qed.

(** The edges of the valuation bands are strictly increasing and at most
    six, so there are at most five bands, one label per gap. *)
Theorem valuation_edges_shape df :
  StronglySorted Qlt (valuation_edges df) /\
  (1 <= length (valuation_edges df) <= 6)%nat /\
  length (valuation_labels df) = (length (valuation_edges df) - 1)%nat.
Proof.
  unfold valuation_labels, valuation_edges. split; [apply np_unique_strict|].
  split; [|apply make_labels_length].
  split.
  - pose proof (np_unique_nonempty _ (quantile_nonempty (kept_avaluo df))) as H.
    destruct (np_unique _); [contradiction|simpl; lia].
  - unfold np_unique.
    pose proof (dedup_sorted_length (sort (quantile (kept_avaluo df) quantile_points))) as H.
    rewrite sort_length in H. exact H.
Qed.


Lemma make_labels_nth qs i :
  (S i < length qs)%nat ->
  nth_error (make_labels qs) i
  = Some (band_label (nth i qs 0) (nth (S i) qs 0)).
Proof.
  intros Hi. unfold make_labels.
  rewrite nth_error_map, nth_error_seq.
  destruct (Nat.ltb_spec i (length qs - 1)); [|lia].
  simpl. now rewrite Nat.add_1_r.
Qed.





(** ** The first and the last band *)



Section Extremes.

Variable col : list (option Q).

Let s : list Q := sort (dropna col).
Let qs : list Q := np_unique (quantile col quantile_points).




End Extremes.






Lemma sample_amounts_exact :
  exact_amounts (map (fun r => VLR_IPU_2025 (source r)) sample_data) /\
  exact_amounts (map (fun r => IPU_LEY_44 (source r)) sample_data).
Proof.
  split; (split; [|vm_compute; discriminate]); intros c Hc; simpl in Hc.
  - right. exists 1000, 1000%Z.
    destruct Hc as [<-|[<-|[<-|[<-|[]]]]]; split; reflexivity.
  - right. exists 1200, 1200%Z.
    destruct Hc as [<-|[<-|[<-|[<-|[]]]]]; split; reflexivity.
Qed.

Lemma recaudo_por_zona_totals_witness :
  exact_amounts (map (fun r => VLR_IPU_2025 (source r)) sample_data) /\
  exact_amounts (map (fun r => IPU_LEY_44 (source r)) sample_data) /\
  sum_Q (recaudo_of "VLR_IPU_2025" (agg sample_data)) == rec_actual sample_data.
Proof.
  destruct sample_amounts_exact as [H1 H2].
  split; [exact H1|]. split; [exact H2|].
  exact (proj1 (recaudo_por_zona_totals sample_data H1 H2)).
Defined.
